(** * PC-Builder: the assembly test window (src/testwindow.cpp)

    A shallow embedding of the drag-and-drop logic of [TestWindow]:
    [snapLocation], [receiveAnswer], [mousePressEvent] and [dropEvent],
    followed by the properties of the snap engine and of the progression
    feedback.

    Conventions.
    - A C++ [int] is a [Z]; the coordinates, sizes and step numbers of the
      program stay far inside the [int] range, so no wrap-around arises.
    - A C++ [double] is an exact rational [Q].  The only doubles of the
      program are [cursor - .5 * size] and [step / 6.0 * 100.0]: the first is
      computed without rounding, and the second is either exact (step a
      multiple of 3) or a third away from the nearest integer, so the
      conversion back to [int] sees the same integer part as in exact
      arithmetic.  The implicit conversion [double -> int] truncates toward
      zero ([toInt]).  [progress_double_agrees] and [follow_double_agrees]
      compare the model with binary64 arithmetic on a range of inputs.
    - The member fields of the window are a record; every call on a widget,
      audio player or signal is logged as an [Effect], in program order.
    - [TestChecker] (testchecker.cpp) is not part of the sources: what it
      returns to [getCurrentStep] and what it sends through [sendAnswer]
      are inputs of the handlers. *)

From Stdlib Require Import ZArith QArith List String Bool Lia Sorted Floats Uint63.
Import ListNotations.
Open Scope Z_scope.

(** ** Qt value types *)

Module QPoint.
Record t : Set := mk { x : Z; y : Z }.
End QPoint.

Module QSize.
Record t : Set := mk { width : Z; height : Z }.
End QSize.

(** The implicit conversion of a [double] to an [int]: the fractional part
    is discarded. *)
Definition toInt (d : Q) : Z := Z.quot (Qnum d) (Z.pos (Qden d)).

(** [QPoint(double, double)]: both arguments are converted to [int]. *)
Definition QPoint_of_doubles (dx dy : Q) : QPoint.t :=
  QPoint.mk (toInt dx) (toInt dy).

(** [QProgressBar]: its value, in the range 0..100 (Qt's default, on which
    the "at 50%" and "at 100%" tests of [receiveAnswer] rely).  [setValue]
    returns without effect when the value is the current one or lies outside
    the range. *)
Module QProgressBar.
Record t : Set := mk { value : Z }.

Definition minimum : Z := 0.
Definition maximum : Z := 100.

Definition setValue (v : Z) (b : t) : t :=
  if (value b =? v)
     || (((v >? maximum) || (v <? minimum))
         && (negb (maximum =? 0) || negb (minimum =? 0)))
  then b
  else mk v.
End QProgressBar.

(** ** The window *)

(** The member fields of [TestWindow] that the handlers read or write, and
    the progress bar of its form. *)
Record TestWindow : Set := mkTestWindow {
  lastSize : QSize.t;
  lastName : string;
  location : QPoint.t;
  dontMove : list string;
  reset : bool;
  progressBar : QProgressBar.t
}.

(** The window as its constructor leaves it. *)
Definition initialWindow (bar : QProgressBar.t) : TestWindow :=
  {| lastSize := QSize.mk 0 0;
     lastName := "none";
     location := QPoint.mk 0 0;
     dontMove := ["caseLabel"; "centralwidget"]%string;
     reset := false;
     progressBar := bar |}.

Inductive Audio : Set := goodAudio | badAudio | winAudio.

(** What a handler does to the outside: sounds, signals, dialogs and widget
    calls, in the order of the program. *)
Inductive Effect : Set :=
| Play (a : Audio)
| Emit_completedTesting
| Emit_checkAnswer (part : string) (newLocal : QPoint.t)
| InfoBox_exec (title reason : string)
| ProgressBar_setValue (v : Z)
| ProgressLabel_show
| ProgressLabel_hide
| ProgressLabel_setText (s : string)
| NewIcon_show (name : string) (pos : QPoint.t) (size : QSize.t)
| NewIcon_move (pos : QPoint.t)
| Event_setDropAction_Move
| Event_accept
| Event_acceptProposedAction
| Event_ignore
| Child_close (name : string)
| Child_show (name : string).

(** ** Handlers as state transformers that log their effects *)

Definition M (A : Type) : Type := TestWindow -> A * TestWindow * list Effect.

Definition ret {A} (a : A) : M A := fun w => (a, w, []).

Definition bind {A B} (m : M A) (k : A -> M B) : M B :=
  fun w =>
    let '(a, w1, e1) := m w in
    let '(b, w2, e2) := k a w1 in
    (b, w2, e1 ++ e2).

Declare Scope handler_scope.
Delimit Scope handler_scope with handler.
Notation "x <- m ;; k" := (bind m (fun x => k))
  (at level 61, m at next level, right associativity) : handler_scope.
Notation "m ;; k" := (bind m (fun _ => k))
  (at level 61, right associativity) : handler_scope.

Definition get : M TestWindow := fun w => (w, w, []).
Definition modify (f : TestWindow -> TestWindow) : M unit := fun w => (tt, f w, []).
Definition effect (e : Effect) : M unit := fun w => (tt, w, [e]).

Definition stateOf {A} (r : A * TestWindow * list Effect) : TestWindow := snd (fst r).
Definition effectsOf {A} (r : A * TestWindow * list Effect) : list Effect := snd r.
Definition valueOf {A} (r : A * TestWindow * list Effect) : A := fst (fst r).

Definition set_lastSize (s : QSize.t) : M unit :=
  modify (fun w => {| lastSize := s; lastName := lastName w; location := location w;
                      dontMove := dontMove w; reset := reset w;
                      progressBar := progressBar w |}).
Definition set_lastName (n : string) : M unit :=
  modify (fun w => {| lastSize := lastSize w; lastName := n; location := location w;
                      dontMove := dontMove w; reset := reset w;
                      progressBar := progressBar w |}).
Definition set_location (p : QPoint.t) : M unit :=
  modify (fun w => {| lastSize := lastSize w; lastName := lastName w; location := p;
                      dontMove := dontMove w; reset := reset w;
                      progressBar := progressBar w |}).
Definition dontMove_append (part : string) : M unit :=
  modify (fun w => {| lastSize := lastSize w; lastName := lastName w;
                      location := location w; dontMove := dontMove w ++ [part];
                      reset := reset w; progressBar := progressBar w |}).
Definition set_reset (b : bool) : M unit :=
  modify (fun w => {| lastSize := lastSize w; lastName := lastName w;
                      location := location w; dontMove := dontMove w; reset := b;
                      progressBar := progressBar w |}).

(** [ui->progressBar->setValue(v)]: the call is logged and the bar updated. *)
Definition progressBar_setValue (v : Z) : M unit :=
  fun w =>
    (tt,
     {| lastSize := lastSize w; lastName := lastName w; location := location w;
        dontMove := dontMove w; reset := reset w;
        progressBar := QProgressBar.setValue v (progressBar w) |},
     [ProgressBar_setValue v]).

(** [dontMove.contains(name)] *)
Definition contains (l : list string) (name : string) : bool :=
  existsb (String.eqb name) l.

(** ** snapLocation (testwindow.cpp, lines 286-335) *)

(** How the [switch] of [snapLocation] is left: by a [return] inside it, or
    by [break] with the current value of [newDrop]. *)
Inductive SwitchExit : Set :=
| Return (p : QPoint.t)
| Break (newDrop : QPoint.t).

(** [step] is what [emit getCurrentStep()] returns; [lastSize] is read from
    the window. *)
Definition snapLocation (w : TestWindow) (step : Z) (cursor : QPoint.t) : QPoint.t :=
  let cx := QPoint.x cursor in
  let cy := QPoint.y cursor in
  let newDrop :=
    QPoint_of_doubles
      (inject_Z cx - 0.5 * inject_Z (QSize.width (lastSize w)))%Q
      (inject_Z cy - 0.5 * inject_Z (QSize.height (lastSize w)))%Q in
  let exit :=
    match step with
    | 1 =>
        (* Motherboard location *)
        if (150 <=? cx) && (cx <=? 450) && (290 <=? cy) && (cy <=? 590)
        then Break (QPoint.mk 200 245)
        else Break newDrop
    | 2 | 3 | 4 | 5 | 6 =>
        (* CPU location *)
        if (315 <=? cx) && (cx <=? 395) && (295 <=? cy) && (cy <=? 375)
        then Break (QPoint.mk 315 295)
        (* Memory location *)
        else if (260 <=? cx) && (cx <=? 350) && (370 <=? cy) && (cy <=? 420)
        then Return (QPoint.mk 260 370)
        (* GPU location *)
        else if (300 <=? cx) && (cx <=? 350) && (430 <=? cy) && (cy <=? 550)
        then Break (QPoint.mk 200 370)
        (* RAM locations *)
        else if (420 <=? cx) && (cx <=? 440) && (280 <=? cy) && (cy <=? 410)
        then Return (QPoint.mk 423 270)
        else if (440 <=? cx) && (cx <=? 460) && (280 <=? cy) && (cy <=? 410)
        then Return (QPoint.mk 443 270)
        else Break newDrop
    | _ => Break newDrop
    end in
  match exit with
  | Return p => p
  | Break newDrop' => newDrop'
  end.

(** ** The zone catalog read off [snapLocation]

    The rectangles and canonical points of the conditional above as a table,
    in the order in which the conditional tests them. *)

Record Zone : Set := mkZone {
  zoneName : string;
  x_min : Z; x_max : Z;
  y_min : Z; y_max : Z;
  canonical : QPoint.t
}.

Definition motherboardZone : Zone := mkZone "motherboardLabel" 150 450 290 590 (QPoint.mk 200 245).
Definition cpuZone : Zone := mkZone "cpuLabel" 315 395 295 375 (QPoint.mk 315 295).
Definition memoryZone : Zone := mkZone "memoryLabel" 260 350 370 420 (QPoint.mk 260 370).
Definition gpuZone : Zone := mkZone "gpuLabel" 300 350 430 550 (QPoint.mk 200 370).
Definition ramZone1 : Zone := mkZone "ramLabel1" 420 440 280 410 (QPoint.mk 423 270).
Definition ramZone2 : Zone := mkZone "ramLabel2" 440 460 280 410 (QPoint.mk 443 270).

(** Closed-interval containment of a point in the rectangle of a zone. *)
Definition inZone (z : Zone) (p : QPoint.t) : Prop :=
  x_min z <= QPoint.x p <= x_max z /\ y_min z <= QPoint.y p <= y_max z.

Definition inZoneb (z : Zone) (p : QPoint.t) : bool :=
  (x_min z <=? QPoint.x p) && (QPoint.x p <=? x_max z)
  && (y_min z <=? QPoint.y p) && (QPoint.y p <=? y_max z).

(** The zones that are active at a step, in declaration order. *)
Definition activeZones (step : Z) : list Zone :=
  if step =? 1 then [motherboardZone]
  else if (2 <=? step) && (step <=? 6)
  then [cpuZone; memoryZone; gpuZone; ramZone1; ramZone2]
  else [].

(** The cursor-follow point: the dragged component centred under the
    cursor, [QPoint(cursor.x() - .5 * lastSize.width(),
    cursor.y() - .5 * lastSize.height())]. *)
Definition cursorFollow (size : QSize.t) (cursor : QPoint.t) : QPoint.t :=
  QPoint_of_doubles
    (inject_Z (QPoint.x cursor) - 0.5 * inject_Z (QSize.width size))%Q
    (inject_Z (QPoint.y cursor) - 0.5 * inject_Z (QSize.height size))%Q.

(** The snap engine as the specification words it: the canonical point of
    the first candidate zone that contains the cursor, else the cursor-follow
    point. *)
Definition snap (size : QSize.t) (step : Z) (cursor : QPoint.t) : QPoint.t :=
  match find (fun z => inZoneb z cursor) (activeZones step) with
  | Some z => canonical z
  | None => cursorFollow size cursor
  end.

(** ** receiveAnswer (testwindow.cpp, lines 337-404) *)

Section Handlers.
Local Open Scope handler_scope.

(** [currentStep] is what [emit getCurrentStep()] returns during the call;
    the other arguments are those of the [sendAnswer] signal. *)
Definition receiveAnswer (currentStep : Z) (correctness : bool) (reason part : string)
    (newLocation : QPoint.t) : M unit :=
  let step := currentStep - 1 in
  if (step =? 6) && correctness then
    set_location newLocation ;;
    dontMove_append part ;;
    (* Play the Win! sound *)
    effect (Play winAudio) ;;
    (* Open the win window. *)
    effect Emit_completedTesting ;;
    (* Update the progress *)
    (let progress := (inject_Z step / 6.0)%Q in
     progressBar_setValue (toInt (progress * 100.0)%Q)) ;;
    (* Show "Nice Job!" text at 100% *)
    w <- get ;;
    if QProgressBar.value (progressBar w) =? 100 then
      effect ProgressLabel_show ;;
      effect (ProgressLabel_setText "Nice Job!")
    else ret tt
  else if correctness then
    set_location newLocation ;;
    dontMove_append part ;;
    let step := step + 1 in
    (* Play the good! sound *)
    effect (Play goodAudio) ;;
    (* Update the progress *)
    (let progress := (inject_Z (step - 1) / 6.0)%Q in
     progressBar_setValue (toInt (progress * 100.0)%Q)) ;;
    (* Show "Almost There!" text at 50% *)
    w <- get ;;
    (if QProgressBar.value (progressBar w) >=? 50 then
       effect ProgressLabel_show ;;
       effect (ProgressLabel_setText "Almost There!")
     else effect ProgressLabel_hide) ;;
    (* Create info box letting you know you were right. *)
    effect (InfoBox_exec "Correct" reason)
  else
    set_reset true ;;
    (* Play the bad! sound *)
    effect (Play badAudio) ;;
    (* Create info box with the reason why you were incorrect. *)
    effect (InfoBox_exec "Incorrect" reason).

(** One emission of [TestChecker::sendAnswer]: its four arguments, and the
    step the checker reports to [getCurrentStep] while [receiveAnswer]
    handles it. *)
Record SendAnswer : Set := mkSendAnswer {
  currentStep : Z;
  correctness : bool;
  reason : string;
  part : string;
  newLocation : QPoint.t
}.

Definition receive (a : SendAnswer) : M unit :=
  receiveAnswer (currentStep a) (correctness a) (reason a) (part a) (newLocation a).

(** The answers the checker sends, handled one after the other. *)
Fixpoint receiveAll (answers : list SendAnswer) : M unit :=
  match answers with
  | [] => ret tt
  | a :: rest => receive a ;; receiveAll rest
  end.

(** [emit checkAnswer(part, newLocal)]: the signal, then the answers that
    the checker sends back through [sendAnswer] before the emission
    returns. *)
Definition emit_checkAnswer (part : string) (newLocal : QPoint.t)
    (answers : list SendAnswer) : M unit :=
  effect (Emit_checkAnswer part newLocal) ;;
  receiveAll answers.

(** ** dropEvent (testwindow.cpp, lines 204-245) *)

(** [hasFormat] is [event->mimeData()->hasFormat("application/x-dnditemdata")],
    [sourceIsThis] is [event->source() == this], [cursor] is
    [event->position().toPoint()], [step] is the step the checker reports
    to [snapLocation], and [answers] are its answers to [checkAnswer].  The
    result is the final position of the icon that the handler creates, if it
    creates one. *)
Definition dropEvent (hasFormat sourceIsThis : bool) (cursor : QPoint.t) (step : Z)
    (answers : list SendAnswer) : M (option QPoint.t) :=
  if hasFormat then
    w <- get ;;
    let newLocal := snapLocation w step cursor in
    effect (NewIcon_show (lastName w) newLocal (lastSize w)) ;;
    (if sourceIsThis then
       effect Event_setDropAction_Move ;;
       effect Event_accept
     else effect Event_acceptProposedAction) ;;
    emit_checkAnswer (lastName w) newLocal answers ;;
    w' <- get ;;
    if reset w' then
      effect (NewIcon_move (location w')) ;;
      set_reset false ;;
      ret (Some (location w'))
    else ret (Some newLocal)
  else
    effect Event_ignore ;;
    ret None.

(** ** mousePressEvent (testwindow.cpp, lines 247-284) *)

(** The label under the mouse, as [childAt(event->pos())] finds it. *)
Record QLabel : Set := mkQLabel {
  objectName : string;
  size : QSize.t;
  pos : QPoint.t
}.

(** What [drag->exec] meets when the drag ends on this window: the drop
    position, the step the checker reports then, and its answers. *)
Record DropOnWindow : Set := mkDropOnWindow {
  dropCursor : QPoint.t;
  dropStep : Z;
  dropAnswers : list SendAnswer
}.

(** How [drag->exec] ends.  The drag is dropped on this window: the drop
    carries the item data and has the window as its source, [dropEvent] runs
    and sets the move action, and [exec] returns [Qt::MoveAction].  Or
    another drop target takes the move: no handler of this window runs and
    [exec] returns [Qt::MoveAction] all the same.  Or the drag is cancelled
    or copied and [exec] returns another action. *)
Inductive DragEnd : Set :=
| DroppedOnWindow (d : DropOnWindow)
| MovedElsewhere
| NotMoved.

(** [child] is [None] for a null pointer; [drag] is how the drag that the
    press starts comes to its end. *)
Definition mousePressEvent (child : option QLabel) (drag : DragEnd) : M unit :=
  match child with
  | None => ret tt
  | Some c =>
      w <- get ;;
      if contains (dontMove w) (objectName c) then ret tt
      else
        set_lastSize (size c) ;;
        set_lastName (objectName c) ;;
        set_location (pos c) ;;
        match drag with
        | DroppedOnWindow d =>
            dropEvent true true (dropCursor d) (dropStep d) (dropAnswers d) ;;
            effect (Child_close (objectName c))
        | MovedElsewhere => effect (Child_close (objectName c))
        | NotMoved => effect (Child_show (objectName c))
        end
  end.

(** A session of the window: one mouse press after the other, each with the
    drag it starts. *)
Fixpoint session (gestures : list (option QLabel * DragEnd)) : M unit :=
  match gestures with
  | [] => ret tt
  | (child, drag) :: rest => mousePressEvent child drag ;; session rest
  end.

End Handlers.

(** ** Auxiliary definitions for the statements *)

(** A window in which a label has been pressed and its drag abandoned:
    [lastSize], [lastName] and [location] are those of the label. *)
Definition pressed (name : string) (size : QSize.t) (pos : QPoint.t) : TestWindow :=
  stateOf (mousePressEvent (Some (mkQLabel name size pos)) NotMoved
             (initialWindow (QProgressBar.mk 0))).

Definition withLocked (w : TestWindow) (newLocation : QPoint.t) (part : string)
    (bar : QProgressBar.t) : TestWindow :=
  {| lastSize := lastSize w; lastName := lastName w; location := newLocation;
     dontMove := dontMove w ++ [part]; reset := reset w; progressBar := bar |}.

Definition withReset (w : TestWindow) (b : bool) : TestWindow :=
  {| lastSize := lastSize w; lastName := lastName w; location := location w;
     dontMove := dontMove w; reset := b; progressBar := progressBar w |}.

(** The value that a correct placement writes to the progress bar. *)
Definition progressOf (currentStep : Z) : Z := Z.quot (100 * (currentStep - 1)) 6.

(** The effects of each answer of a run, one list per call of
    [receiveAnswer]. *)
Fixpoint answerEffects (answers : list SendAnswer) (w : TestWindow) : list (list Effect) :=
  match answers with
  | [] => []
  | a :: rest =>
      let r := receive a w in
      effectsOf r :: answerEffects rest (stateOf r)
  end.

(** The parts of the completion outcome, as tests on a logged effect. *)
Definition is_completedTesting (e : Effect) : bool :=
  match e with Emit_completedTesting => true | _ => false end.

Definition is_winSound (e : Effect) : bool :=
  match e with Play winAudio => true | _ => false end.

Definition is_progress100 (e : Effect) : bool :=
  match e with ProgressBar_setValue v => v =? 100 | _ => false end.

Definition is_niceJob (e : Effect) : bool :=
  match e with ProgressLabel_setText s => String.eqb s "Nice Job!" | _ => false end.

(** The values passed to [ui->progressBar->setValue], in order. *)
Definition writtenValues (evs : list Effect) : list Z :=
  flat_map (fun e => match e with ProgressBar_setValue v => [v] | _ => [] end) evs.

Definition progressWrites (answers : list SendAnswer) (w : TestWindow) : list Z :=
  writtenValues (effectsOf (receiveAll answers w)).

(** The value of the progress bar after each answer of a run. *)
Fixpoint barValues (answers : list SendAnswer) (w : TestWindow) : list Z :=
  match answers with
  | [] => []
  | a :: rest =>
      let w' := stateOf (receive a w) in
      QProgressBar.value (progressBar w') :: barValues rest w'
  end.

(** A placement is the final one when the checker's counter, less one, is 6. *)
Definition isFinal (a : SendAnswer) : bool :=
  (currentStep a - 1 =? 6) && correctness a.

(** The number of locked components after each answer of a run: the length
    of [dontMove] less its two backdrop entries, "caseLabel" and
    "centralwidget". *)
Fixpoint lockedAfter (answers : list SendAnswer) (w : TestWindow) : list Z :=
  match answers with
  | [] => []
  | a :: rest =>
      let w' := stateOf (receive a w) in
      (Z.of_nat (List.length (dontMove w')) - 2) :: lockedAfter rest w'
  end.

(** A checker that counts: on every answer its step is one more than the
    number of placements it has judged correct so far, this one included;
    [n] is that number before the run. *)
Fixpoint checkerCounts (n : Z) (answers : list SendAnswer) : Prop :=
  match answers with
  | [] => True
  | a :: rest =>
      let n' := if correctness a then n + 1 else n in
      currentStep a = n' + 1 /\ checkerCounts n' rest
  end.

(** The window once [mousePressEvent] has recorded the pressed label. *)
Definition afterPress (w : TestWindow) (c : QLabel) : TestWindow :=
  {| lastSize := size c; lastName := objectName c; location := pos c;
     dontMove := dontMove w; reset := reset w; progressBar := progressBar w |}.

Definition is_checkAnswer_for (name : string) (e : Effect) : bool :=
  match e with Emit_checkAnswer part _ => String.eqb part name | _ => false end.

Definition is_iconMove (e : Effect) : bool :=
  match e with NewIcon_move _ => true | _ => false end.

(** A run of six correct placements with two failed attempts, as the checker
    reports it: the counter is 2..7 on the correct ones. *)
Definition sampleRun : list SendAnswer :=
  [ mkSendAnswer 1 false "Place the motherboard first." "cpuLabel" (QPoint.mk 315 295);
    mkSendAnswer 2 true "Motherboard placed." "motherboardLabel" (QPoint.mk 200 245);
    mkSendAnswer 3 true "CPU placed." "cpuLabel" (QPoint.mk 315 295);
    mkSendAnswer 3 false "Not the GPU slot." "gpuLabel" (QPoint.mk 423 270);
    mkSendAnswer 4 true "Memory placed." "memoryLabel" (QPoint.mk 260 370);
    mkSendAnswer 5 true "GPU placed." "gpuLabel" (QPoint.mk 200 370);
    mkSendAnswer 6 true "RAM placed." "ramLabel1" (QPoint.mk 423 270);
    mkSendAnswer 7 true "RAM placed." "ramLabel2" (QPoint.mk 443 270) ].

(** A window in which the motherboard has been dragged to (300,400) and
    accepted by the checker. *)
Definition motherboardPlaced : TestWindow :=
  stateOf (mousePressEvent
             (Some (mkQLabel "motherboardLabel" (QSize.mk 300 300) (QPoint.mk 640 60)))
             (DroppedOnWindow (mkDropOnWindow (QPoint.mk 300 400) 1
                      [mkSendAnswer 2 true "Motherboard placed." "motherboardLabel"
                         (QPoint.mk 200 245)]))
             (initialWindow (QProgressBar.mk 0))).

(** ** The two doubles of the program in IEEE 754 binary64

    The same expressions on the kernel's floating-point numbers, to compare
    with the rational model above. *)

Definition double_of_int (n : Z) : float :=
  if n <? 0 then PrimFloat.opp (PrimFloat.of_uint63 (Uint63.of_Z (- n)))
  else PrimFloat.of_uint63 (Uint63.of_Z n).

(** Truncation toward zero of a finite double. *)
Definition int_of_double (d : float) : Z :=
  match Prim2SF d with
  | S754_finite s m e =>
      let v := if 0 <=? e then Z.shiftl (Z.pos m) e else Z.shiftr (Z.pos m) (- e) in
      if s then - v else v
  | _ => 0
  end.

(** [setValue(step / 6.0 * 100.0)] *)
Definition progress_double (step : Z) : Z :=
  int_of_double (double_of_int step / 6.0 * 100.0)%float.

(** [cursor.x() - .5 * lastSize.width()], converted to [int] *)
Definition follow_double (x width : Z) : Z :=
  int_of_double (double_of_int x - 0.5 * double_of_int width)%float.

Definition range (lo : Z) (n : nat) : list Z := map (fun k => lo + Z.of_nat k) (seq 0 n).

(** ** dragEnterEvent and dragMoveEvent (testwindow.cpp, lines 166-202) *)

(** [hasFormat] and [sourceIsThis] as in [dropEvent]. *)
Definition dragEnterEvent (hasFormat sourceIsThis : bool) : M unit :=
  (if hasFormat then
     if sourceIsThis then
       effect Event_setDropAction_Move ;;
       effect Event_accept
     else effect Event_acceptProposedAction
   else effect Event_ignore)%handler.

Definition dragMoveEvent (hasFormat sourceIsThis : bool) : M unit :=
  (if hasFormat then
     if sourceIsThis then
       effect Event_setDropAction_Move ;;
       effect Event_accept
     else effect Event_acceptProposedAction
   else effect Event_ignore)%handler.

(** ** updateProgressLabel (testwindow.cpp, lines 411-416) *)

(** The rainbow colours that the constructor stores in
    [progressLabelColors]; [progressLabelIndex] starts at 0. *)
Definition progressLabelColors : list string :=
  ["red"; "orange"; "yellow"; "green"; "blue"; "indigo"; "violet"]%string.

(** One tick of [progressLabelTimer]: the style sheet set on the label and
    the next [progressLabelIndex].  [progressLabelColors[i]] has no value for
    an index outside the list, and then neither has the call. *)
Definition updateProgressLabel (progressLabelIndex : Z) : option (string * Z) :=
  if progressLabelIndex <? 0 then None
  else
    match nth_error progressLabelColors (Z.to_nat progressLabelIndex) with
    | Some color =>
        Some (("color: " ++ color ++ "; font-size: 60px;")%string,
              Z.rem (progressLabelIndex + 1) (Z.of_nat (List.length progressLabelColors)))
    | None => None
    end.

(** [n] ticks of the timer: the style sheets set, in order, and the index
    left. *)
Fixpoint ticks (n : nat) (progressLabelIndex : Z) : option (list string * Z) :=
  match n with
  | O => Some ([], progressLabelIndex)
  | S n' =>
      match updateProgressLabel progressLabelIndex with
      | Some (sheet, next) =>
          match ticks n' next with
          | Some (sheets, final) => Some (sheet :: sheets, final)
          | None => None
          end
      | None => None
      end
  end.

(** The style sheet of the [j]-th rainbow colour, counted round the list. *)
Definition sheetAt (j : Z) : string :=
  ("color: " ++ nth (Z.to_nat (j mod 7)) progressLabelColors "" ++ "; font-size: 60px;")%string.

(** ** Further tests on logged effects *)

(** The sounds played, in order. *)
Definition sounds (evs : list Effect) : list Audio :=
  flat_map (fun e => match e with Play a => [a] | _ => [] end) evs.

(** The dialogs opened, in order: title and text. *)
Definition dialogs (evs : list Effect) : list (string * string) :=
  flat_map (fun e => match e with InfoBox_exec t r => [(t, r)] | _ => [] end) evs.

(** The calls on [ui->progressLabel], in order. *)
Definition labelCalls (evs : list Effect) : list Effect :=
  filter (fun e => match e with
                   | ProgressLabel_show | ProgressLabel_hide | ProgressLabel_setText _ => true
                   | _ => false
                   end) evs.

(** Icons named [name] that the effects add to the window ([NewIcon_show])
    less those they close ([Child_close]). *)
Definition iconBalance (name : string) (evs : list Effect) : Z :=
  fold_right
    (fun e acc =>
       match e with
       | NewIcon_show n _ _ => if String.eqb n name then acc + 1 else acc
       | Child_close n => if String.eqb n name then acc - 1 else acc
       | _ => acc
       end) 0 evs.

(** The names of the labels pressed in a session. *)
Definition pressedNames (gestures : list (option QLabel * DragEnd)) : list string :=
  flat_map (fun g => match fst g with Some c => [objectName c] | None => [] end) gestures.

(** A gesture whose drop the checker answers at most once, and about the
    label that was dragged. *)
Definition echoes (g : option QLabel * DragEnd) : Prop :=
  match g with
  | (Some c, DroppedOnWindow d) =>
      match dropAnswers d with
      | [] => True
      | [a] => part a = objectName c
      | _ => False
      end
  | _ => True
  end.

(** * Properties *)

(** ** Arithmetic of the two conversions *)

Lemma toInt_half (a b : Z) :
  toInt (inject_Z a - 0.5 * inject_Z b)%Q = Z.quot (2 * a - b) 2.
Proof.
  unfold toInt, Qminus, Qplus, Qopp, Qmult, inject_Z. cbn [Qnum Qden].
  change (Z.pos (1 * (10 * 1))) with (5 * 2).
  replace (a * Z.pos (10 * 1) + - (5 * b) * 1) with (5 * (2 * a - b)) by lia.
  apply Z.quot_mul_cancel_l; lia.
Qed.

Lemma toInt_progress (s : Z) :
  toInt (inject_Z s / 6.0 * 100.0)%Q = Z.quot (100 * s) 6.
Proof.
  unfold toInt, Qdiv, Qmult, Qinv, inject_Z. cbn [Qnum Qden].
  cbn -[Z.mul Z.quot].
  replace (s * 10 * 1000) with (100 * s * 100) by lia.
  change 600 with (6 * 100).
  apply Z.quot_mul_cancel_r; lia.
Qed.

Lemma cursorFollow_coords (size : QSize.t) (cursor : QPoint.t) :
  cursorFollow size cursor =
  QPoint.mk (Z.quot (2 * QPoint.x cursor - QSize.width size) 2)
            (Z.quot (2 * QPoint.y cursor - QSize.height size) 2).
Proof. unfold cursorFollow, QPoint_of_doubles. now rewrite !toInt_half. Qed.

Lemma inZoneb_spec (z : Zone) (p : QPoint.t) : inZoneb z p = true <-> inZone z p.
Proof.
  unfold inZoneb, inZone. rewrite !andb_true_iff, !Z.leb_le. tauto.
Qed.

Lemma inZoneb_false (z : Zone) (p : QPoint.t) : inZoneb z p = false <-> ~ inZone z p.
Proof.
  rewrite <- inZoneb_spec. destruct (inZoneb z p); split; congruence.
Qed.

(** On binary64 the two conversions give the integers of the rational
    model: for the steps -50..449, and for cursors -30..89 with sizes
    0..59. *)
Example progress_double_agrees :
  forallb (fun s => progress_double s =? toInt (inject_Z s / 6.0 * 100.0)%Q)
          (range (-50) 500) = true.
Proof. vm_compute. reflexivity. Qed.

Example follow_double_agrees :
  forallb (fun x =>
             forallb (fun w => follow_double x w =? toInt (inject_Z x - 0.5 * inject_Z w)%Q)
                     (range 0 60))
          (range (-30) 120) = true.
Proof. vm_compute. reflexivity. Qed.

(** ** The conditional of [snapLocation] and the zone catalog *)

Lemma step_cases (step : Z) :
  step = 1 \/ (step = 2 \/ step = 3 \/ step = 4 \/ step = 5 \/ step = 6)
  \/ (step < 1 \/ 6 < step).
Proof. lia. Qed.

Lemma snapLocation_first (w : TestWindow) (cursor : QPoint.t) :
  snapLocation w 1 cursor =
  if inZoneb motherboardZone cursor then QPoint.mk 200 245
  else cursorFollow (lastSize w) cursor.
Proof.
  unfold snapLocation, inZoneb, cursorFollow; cbn [x_min x_max y_min y_max motherboardZone].
  now destruct (_ && _).
Qed.

Lemma snapLocation_free (w : TestWindow) (step : Z) (cursor : QPoint.t) :
  2 <= step <= 6 ->
  snapLocation w step cursor =
  if inZoneb cpuZone cursor then QPoint.mk 315 295
  else if inZoneb memoryZone cursor then QPoint.mk 260 370
  else if inZoneb gpuZone cursor then QPoint.mk 200 370
  else if inZoneb ramZone1 cursor then QPoint.mk 423 270
  else if inZoneb ramZone2 cursor then QPoint.mk 443 270
  else cursorFollow (lastSize w) cursor.
Proof.
  intros H.
  assert (step = 2 \/ step = 3 \/ step = 4 \/ step = 5 \/ step = 6) as C by lia.
  unfold inZoneb, cursorFollow;
    cbn [x_min x_max y_min y_max cpuZone memoryZone gpuZone ramZone1 ramZone2].
  destruct C as [-> | [-> | [-> | [-> | ->]]]]; unfold snapLocation;
    repeat (destruct (_ && _ && _ && _); [reflexivity|]); reflexivity.
Qed.

Lemma snapLocation_inactive (w : TestWindow) (step : Z) (cursor : QPoint.t) :
  step < 1 \/ 6 < step ->
  snapLocation w step cursor = cursorFollow (lastSize w) cursor.
Proof.
  intros H. unfold snapLocation, cursorFollow.
  destruct step as [|p|p]; try reflexivity.
  destruct p as [[[p|p|]|[p|p|]|]|[[p|p|]|[p|p|]|]|]; try reflexivity; lia.
Qed.

Lemma activeZones_free (step : Z) :
  2 <= step <= 6 -> activeZones step = [cpuZone; memoryZone; gpuZone; ramZone1; ramZone2].
Proof.
  intros H. unfold activeZones.
  destruct (Z.eqb_spec step 1); [lia|].
  destruct (Z.leb_spec 2 step); [|lia].
  destruct (Z.leb_spec step 6); [reflexivity|lia].
Qed.

Lemma activeZones_inactive (step : Z) : step < 1 \/ 6 < step -> activeZones step = [].
Proof.
  intros H. unfold activeZones.
  destruct (Z.eqb_spec step 1); [lia|].
  destruct (Z.leb_spec 2 step); [|reflexivity].
  destruct (Z.leb_spec step 6); [lia|reflexivity].
Qed.

(** The conditional is the table look-up: [snapLocation] returns what the
    catalog-driven [snap] returns. *)
Lemma snapLocation_snap (w : TestWindow) (step : Z) (cursor : QPoint.t) :
  snapLocation w step cursor = snap (lastSize w) step cursor.
Proof.
  unfold snap.
  destruct (step_cases step) as [-> | [C | C]].
  - rewrite snapLocation_first. cbn [activeZones Z.eqb Pos.eqb find].
    now destruct (inZoneb motherboardZone cursor).
  - rewrite snapLocation_free, activeZones_free by lia. cbn [find].
    repeat (destruct (inZoneb _ cursor); [reflexivity|]); reflexivity.
  - now rewrite snapLocation_inactive, activeZones_inactive.
Qed.

Lemma find_first_match {A} (f : A -> bool) (pre post : list A) (a : A) :
  (forall b, In b pre -> f b = false) -> f a = true ->
  find f (pre ++ a :: post) = Some a.
Proof.
  induction pre as [|b pre IH]; intros Hpre Ha; cbn [app find].
  - now rewrite Ha.
  - rewrite (Hpre b (or_introl eq_refl)). apply IH; auto.
    intros c Hc. apply Hpre. now right.
Qed.

Lemma find_no_match {A} (f : A -> bool) (l : list A) :
  (forall b, In b l -> f b = false) -> find f l = None.
Proof.
  induction l as [|b l IH]; intros H; cbn [find]; [reflexivity|].
  rewrite (H b (or_introl eq_refl)). apply IH. intros c Hc. apply H. now right.
Qed.

(** First match wins: a zone's canonical point is returned wherever the
    cursor is in the zone and in no zone declared before it. *)
Lemma snapLocation_first_match (w : TestWindow) (step : Z) (cursor : QPoint.t)
    (pre post : list Zone) (z : Zone) :
  activeZones step = pre ++ z :: post ->
  inZone z cursor ->
  (forall z', In z' pre -> ~ inZone z' cursor) ->
  snapLocation w step cursor = canonical z.
Proof.
  intros Hact Hz Hpre. rewrite snapLocation_snap. unfold snap. rewrite Hact.
  rewrite find_first_match; [reflexivity| |].
  - intros b Hb. apply inZoneb_false. now apply Hpre.
  - now apply inZoneb_spec.
Qed.

(** With no active zone around the cursor the cursor-follow point is
    returned. *)
Lemma snapLocation_miss (w : TestWindow) (step : Z) (cursor : QPoint.t) :
  (forall z, In z (activeZones step) -> ~ inZone z cursor) ->
  snapLocation w step cursor = cursorFollow (lastSize w) cursor.
Proof.
  intros H. rewrite snapLocation_snap. unfold snap.
  rewrite find_no_match; [reflexivity|].
  intros b Hb. apply inZoneb_false. now apply H.
Qed.

(** The rectangles that overlap are CPU with Memory, and the two RAM slots
    (on the line x = 440); every other pair of zones of a step is disjoint. *)
Lemma zones_overlap (p : QPoint.t) :
  (inZone cpuZone p /\ inZone memoryZone p <->
   315 <= QPoint.x p <= 350 /\ 370 <= QPoint.y p <= 375)
  /\ (inZone ramZone1 p /\ inZone ramZone2 p <->
      QPoint.x p = 440 /\ 280 <= QPoint.y p <= 410)
  /\ ~ (inZone cpuZone p /\ inZone gpuZone p)
  /\ ~ (inZone cpuZone p /\ inZone ramZone1 p)
  /\ ~ (inZone cpuZone p /\ inZone ramZone2 p)
  /\ ~ (inZone memoryZone p /\ inZone gpuZone p)
  /\ ~ (inZone memoryZone p /\ inZone ramZone1 p)
  /\ ~ (inZone memoryZone p /\ inZone ramZone2 p)
  /\ ~ (inZone gpuZone p /\ inZone ramZone1 p)
  /\ ~ (inZone gpuZone p /\ inZone ramZone2 p).
Proof. unfold inZone; cbn. lia. Qed.

Ltac zone_arith := unfold inZone in *; cbn in *; lia.

(** C1 (as amended).  For every step 1..6 and every zone active at the step,
    a cursor inside the zone's closed rectangle and inside no zone declared
    before it is snapped to exactly that zone's canonical point, wherever in
    the rectangle it is and whatever the size of the dragged component: the
    motherboard zone at step 1, and at steps 2..6 the CPU, GPU and first RAM
    zones on their whole rectangle, the Memory zone outside the CPU
    rectangle, the second RAM zone outside the first. *)
Theorem snap_canonical_point (w : TestWindow) (step : Z) (cursor : QPoint.t) :
  (forall pre z post,
      activeZones step = pre ++ z :: post ->
      inZone z cursor ->
      (forall z', In z' pre -> ~ inZone z' cursor) ->
      snapLocation w step cursor = canonical z)
  /\ (step = 1 -> inZone motherboardZone cursor ->
      snapLocation w step cursor = QPoint.mk 200 245)
  /\ (2 <= step <= 6 ->
      (inZone cpuZone cursor -> snapLocation w step cursor = QPoint.mk 315 295)
      /\ (inZone memoryZone cursor -> ~ inZone cpuZone cursor ->
          snapLocation w step cursor = QPoint.mk 260 370)
      /\ (inZone gpuZone cursor -> snapLocation w step cursor = QPoint.mk 200 370)
      /\ (inZone ramZone1 cursor -> snapLocation w step cursor = QPoint.mk 423 270)
      /\ (inZone ramZone2 cursor -> ~ inZone ramZone1 cursor ->
          snapLocation w step cursor = QPoint.mk 443 270)).
Proof.
  split; [|split].
  - intros pre z post. apply snapLocation_first_match.
  - intros -> H. rewrite snapLocation_first.
    apply inZoneb_spec in H. now rewrite H.
  - intros Hs. rewrite snapLocation_free by exact Hs.
    repeat split; intros;
      repeat match goal with
             | |- context [inZoneb ?z cursor] =>
                 let E := fresh "E" in
                 destruct (inZoneb z cursor) eqn:E;
                 [apply inZoneb_spec in E | apply inZoneb_false in E]
             end;
      try reflexivity; exfalso; zone_arith.
Qed.

Lemma snap_canonical_point_witness :
  snapLocation (pressed "memoryLabel" (QSize.mk 90 50) (QPoint.mk 600 200)) 3
    (QPoint.mk 300 400) = QPoint.mk 260 370
  /\ snapLocation (pressed "ramLabel2" (QSize.mk 20 130) (QPoint.mk 600 300)) 2
       (QPoint.mk 460 410) = canonical ramZone2.
Proof.
  split.
  - apply (proj2 (proj2 (snap_canonical_point _ 3 (QPoint.mk 300 400)))).
    + lia.
    + unfold inZone; cbn; lia.
    + unfold inZone; cbn; lia.
  - apply (proj1 (snap_canonical_point _ 2 (QPoint.mk 460 410))
             [cpuZone; memoryZone; gpuZone; ramZone1] ramZone2 []).
    + reflexivity.
    + unfold inZone; cbn; lia.
    + intros z' [<- | [<- | [<- | [<- | []]]]]; unfold inZone; cbn; lia.
Defined.

(** C1, as stated, fails where rectangles overlap: at step 2 the cursor
    (320,372) is inside the Memory rectangle and is snapped to the CPU point;
    (440,300) is inside the second RAM rectangle and is snapped to the point
    of the first. *)
Lemma snap_canonical_point_counterexample :
  let w := pressed "memoryLabel" (QSize.mk 90 50) (QPoint.mk 600 200) in
  (In memoryZone (activeZones 2) /\ inZone memoryZone (QPoint.mk 320 372)
   /\ snapLocation w 2 (QPoint.mk 320 372) = QPoint.mk 315 295
   /\ snapLocation w 2 (QPoint.mk 320 372) <> canonical memoryZone)
  /\ (In ramZone2 (activeZones 2) /\ inZone ramZone2 (QPoint.mk 440 300)
      /\ snapLocation w 2 (QPoint.mk 440 300) = QPoint.mk 423 270
      /\ snapLocation w 2 (QPoint.mk 440 300) <> canonical ramZone2).
Proof.
  cbv zeta. repeat split; try (cbn; tauto); try (unfold inZone; cbn; lia);
    try reflexivity; discriminate.
Qed.

(** C6 (as amended).  The candidate zones depend on the step and a zone has
    no effect outside its step.  At step 1 the result is the motherboard
    point (200,245) exactly when the cursor is inside [150,450]x[290,590] and
    the cursor-follow point otherwise, whichever rectangles of steps 2..6
    contain the cursor; at steps 2..6 a cursor inside the motherboard
    rectangle and outside the CPU, Memory, GPU and RAM rectangles gets the
    cursor-follow point.  (The cursor-follow point is computed from the
    cursor and the size alone, so it can happen to be a canonical point.) *)
Theorem snap_stage_gating (w : TestWindow) (cursor : QPoint.t) :
  snapLocation w 1 cursor =
    (if inZoneb motherboardZone cursor then QPoint.mk 200 245
     else cursorFollow (lastSize w) cursor)
  /\ (forall step,
         2 <= step <= 6 ->
         inZone motherboardZone cursor ->
         ~ inZone cpuZone cursor -> ~ inZone memoryZone cursor ->
         ~ inZone gpuZone cursor ->
         ~ inZone ramZone1 cursor -> ~ inZone ramZone2 cursor ->
         snapLocation w step cursor = cursorFollow (lastSize w) cursor).
Proof.
  split.
  - apply snapLocation_first.
  - intros step Hs _ H1 H2 H3 H4 H5. apply snapLocation_miss.
    rewrite activeZones_free by exact Hs.
    intros z [<- | [<- | [<- | [<- | [<- | []]]]]]; assumption.
Qed.

Lemma snap_stage_gating_witness :
  snapLocation (pressed "cpuLabel" (QSize.mk 80 80) (QPoint.mk 600 100)) 4
    (QPoint.mk 200 500)
  = cursorFollow (QSize.mk 80 80) (QPoint.mk 200 500).
Proof.
  apply (proj2 (snap_stage_gating
                  (pressed "cpuLabel" (QSize.mk 80 80) (QPoint.mk 600 100))
                  (QPoint.mk 200 500)) 4);
    unfold inZone; cbn; lia.
Defined.

(** C6, as stated, fails on the values returned: at step 2 a component of
    size 100x110 dropped at (250,300), inside the motherboard rectangle and
    outside the five others, lands on (200,245); at step 1 a component of
    size 60x60 dropped at (453,300), outside the motherboard rectangle,
    lands on the canonical point (423,270) of the first RAM zone. *)
Lemma snap_stage_gating_counterexample :
  (let w := pressed "gpuLabel" (QSize.mk 100 110) (QPoint.mk 600 400) in
   let cursor := QPoint.mk 250 300 in
   inZone motherboardZone cursor
   /\ (forall z, In z (activeZones 2) -> ~ inZone z cursor)
   /\ snapLocation w 2 cursor = QPoint.mk 200 245)
  /\ (let w := pressed "cpuLabel" (QSize.mk 60 60) (QPoint.mk 600 100) in
      let cursor := QPoint.mk 453 300 in
      ~ inZone motherboardZone cursor
      /\ snapLocation w 1 cursor = canonical ramZone1).
Proof.
  cbv zeta. repeat split; try (unfold inZone; cbn; lia); try reflexivity.
  intros z [<- | [<- | [<- | [<- | [<- | []]]]]]; unfold inZone; cbn; lia.
Qed.

(** C7.  For every cursor point contained in no zone active at the current
    step, [snapLocation] returns the point that centres the dragged
    component under the cursor, computed from its last recorded size:
    [QPoint(cursor.x - .5 * width, cursor.y - .5 * height)].  Each coordinate
    is the half-difference with its fraction dropped, so it is within half a
    pixel of the exact centre, and is [cursor - size / 2] for an even
    size. *)
Theorem snap_cursor_follow (w : TestWindow) (step : Z) (cursor : QPoint.t) :
  (forall z, In z (activeZones step) -> ~ inZone z cursor) ->
  let width := QSize.width (lastSize w) in
  let height := QSize.height (lastSize w) in
  let p := snapLocation w step cursor in
  p = QPoint_of_doubles (inject_Z (QPoint.x cursor) - 0.5 * inject_Z width)%Q
                        (inject_Z (QPoint.y cursor) - 0.5 * inject_Z height)%Q
  /\ QPoint.x p = Z.quot (2 * QPoint.x cursor - width) 2
  /\ QPoint.y p = Z.quot (2 * QPoint.y cursor - height) 2
  /\ -1 <= 2 * QPoint.x p - (2 * QPoint.x cursor - width) <= 1
  /\ -1 <= 2 * QPoint.y p - (2 * QPoint.y cursor - height) <= 1
  /\ (Z.even width = true -> QPoint.x p = QPoint.x cursor - width / 2)
  /\ (Z.even height = true -> QPoint.y p = QPoint.y cursor - height / 2).
Proof.
  intros H width height p.
  assert (Hp : p = cursorFollow (lastSize w) cursor) by now apply snapLocation_miss.
  split; [exact Hp|].
  rewrite Hp, cursorFollow_coords. cbn [QPoint.x QPoint.y]. fold width height.
  repeat split; try (Z.to_euclidean_division_equations; lia).
  - intros E. apply Z.even_spec in E. destruct E as [k E].
    Z.to_euclidean_division_equations; lia.
  - intros E. apply Z.even_spec in E. destruct E as [k E].
    Z.to_euclidean_division_equations; lia.
Qed.

Lemma snap_cursor_follow_witness :
  snapLocation (pressed "cpuLabel" (QSize.mk 81 80) (QPoint.mk 600 100)) 1
    (QPoint.mk 100 100) = QPoint.mk 59 60.
Proof.
  refine (proj1 (snap_cursor_follow
                   (pressed "cpuLabel" (QSize.mk 81 80) (QPoint.mk 600 100)) 1
                   (QPoint.mk 100 100) _)).
  intros z [<- | []]; unfold inZone; cbn; lia.
Defined.

(** C8.  Overlaps are resolved by declaration order and never fail:
    [snapLocation] returns the canonical point of the first zone of the
    step's catalog that contains the cursor.  At steps 2..6 a cursor with
    x = 440 and 280 <= y <= 410 lies in both RAM rectangles and gets the
    first RAM point (423,270); a cursor with 315 <= x <= 350 and
    370 <= y <= 375 lies in both the CPU and the Memory rectangle and gets
    the CPU point (315,295). *)
Theorem snap_overlap_first_declared (w : TestWindow) (step : Z) (cursor : QPoint.t) :
  snapLocation w step cursor =
    match find (fun z => inZoneb z cursor) (activeZones step) with
    | Some z => canonical z
    | None => cursorFollow (lastSize w) cursor
    end
  /\ (2 <= step <= 6 ->
      QPoint.x cursor = 440 -> 280 <= QPoint.y cursor <= 410 ->
      inZone ramZone1 cursor /\ inZone ramZone2 cursor
      /\ snapLocation w step cursor = QPoint.mk 423 270)
  /\ (2 <= step <= 6 ->
      315 <= QPoint.x cursor <= 350 -> 370 <= QPoint.y cursor <= 375 ->
      inZone cpuZone cursor /\ inZone memoryZone cursor
      /\ snapLocation w step cursor = QPoint.mk 315 295).
Proof.
  split; [apply snapLocation_snap|]. split.
  - intros Hs Hx Hy.
    assert (inZone ramZone1 cursor) as R1 by zone_arith.
    assert (inZone ramZone2 cursor) as R2 by zone_arith.
    repeat split; try apply R1; try apply R2.
    apply (snapLocation_first_match w step cursor [cpuZone; memoryZone; gpuZone]
             [ramZone2] ramZone1);
      [now apply activeZones_free | exact R1 |].
    intros z' [<- | [<- | [<- | []]]]; zone_arith.
  - intros Hs Hx Hy.
    assert (inZone cpuZone cursor) as R1 by zone_arith.
    assert (inZone memoryZone cursor) as R2 by zone_arith.
    repeat split; try apply R1; try apply R2.
    apply (snapLocation_first_match w step cursor []
             [memoryZone; gpuZone; ramZone1; ramZone2] cpuZone);
      [now apply activeZones_free | exact R1 |].
    intros z' [].
Qed.

Lemma snap_overlap_first_declared_witness :
  snapLocation (pressed "ramLabel2" (QSize.mk 20 130) (QPoint.mk 600 300)) 5
    (QPoint.mk 440 280) = QPoint.mk 423 270
  /\ snapLocation (pressed "memoryLabel" (QSize.mk 90 50) (QPoint.mk 600 200)) 2
       (QPoint.mk 350 375) = QPoint.mk 315 295.
Proof.
  split.
  - apply (proj1 (proj2 (snap_overlap_first_declared _ 5 (QPoint.mk 440 280))));
      cbn; lia.
  - apply (proj2 (proj2 (snap_overlap_first_declared _ 2 (QPoint.mk 350 375))));
      cbn; lia.
Defined.

(** C9 (as amended).  For every cursor point outside all active zones,
    [snapLocation] returns the cursor moved up and left by half the last
    recorded size of the dragged component (fractions dropped); this is the
    raw cursor point when that size is 0x0, and differs from it as soon as
    the width or the height is at least 2. *)
Theorem snap_miss_point (w : TestWindow) (step : Z) (cursor : QPoint.t) :
  (forall z, In z (activeZones step) -> ~ inZone z cursor) ->
  snapLocation w step cursor =
    QPoint.mk (Z.quot (2 * QPoint.x cursor - QSize.width (lastSize w)) 2)
              (Z.quot (2 * QPoint.y cursor - QSize.height (lastSize w)) 2)
  /\ (lastSize w = QSize.mk 0 0 -> snapLocation w step cursor = cursor)
  /\ (2 <= Z.abs (QSize.width (lastSize w)) \/ 2 <= Z.abs (QSize.height (lastSize w)) ->
      snapLocation w step cursor <> cursor).
Proof.
  intros H. rewrite (snapLocation_miss w step cursor H), cursorFollow_coords.
  split; [reflexivity|]. destruct cursor as [cx cy]. cbn [QPoint.x QPoint.y]. split.
  - intros ->. cbn [QSize.width QSize.height]. f_equal;
      Z.to_euclidean_division_equations; lia.
  - intros Hsz E.
    assert (Ex := f_equal QPoint.x E). assert (Ey := f_equal QPoint.y E).
    cbn [QPoint.x QPoint.y] in Ex, Ey.
    destruct Hsz; Z.to_euclidean_division_equations; lia.
Qed.

Lemma snap_miss_point_witness :
  snapLocation (initialWindow (QProgressBar.mk 0)) 1 (QPoint.mk 100 100)
  = QPoint.mk 100 100.
Proof.
  refine (proj1 (proj2 (snap_miss_point (initialWindow (QProgressBar.mk 0)) 1
                          (QPoint.mk 100 100) _)) eq_refl).
  intros z [<- | []]; unfold inZone; cbn; lia.
Defined.

(** C9, as stated, fails: at step 1 a component of size 80x80 dropped at
    (100,100), outside the motherboard rectangle, is placed at (60,60) and
    not at the cursor. *)
Lemma snap_miss_point_counterexample :
  let w := pressed "cpuLabel" (QSize.mk 80 80) (QPoint.mk 600 100) in
  let cursor := QPoint.mk 100 100 in
  (forall z, In z (activeZones 1) -> ~ inZone z cursor)
  /\ snapLocation w 1 cursor = QPoint.mk 60 60
  /\ snapLocation w 1 cursor <> cursor.
Proof.
  cbv zeta. repeat split; try reflexivity; try discriminate.
  intros z [<- | []]; unfold inZone; cbn; lia.
Qed.



(** ** receiveAnswer, case by case *)

Lemma setValue_100 (b : QProgressBar.t) :
  QProgressBar.value (QProgressBar.setValue 100 b) = 100.
Proof.
  unfold QProgressBar.setValue. cbn.
  destruct (Z.eqb_spec (QProgressBar.value b) 100) as [E|E]; cbn; auto.
Qed.

Lemma setValue_in_range (v : Z) (b : QProgressBar.t) :
  0 <= v <= 100 -> QProgressBar.value (QProgressBar.setValue v b) = v.
Proof.
  intros H. unfold QProgressBar.setValue, QProgressBar.maximum, QProgressBar.minimum.
  destruct (Z.eqb_spec (QProgressBar.value b) v) as [E|E]; cbn [orb]; [exact E|].
  destruct (Z.gtb_spec v 100); [lia|]. destruct (Z.ltb_spec v 0); [lia|].
  reflexivity.
Qed.

Lemma receiveAnswer_incorrect (w : TestWindow) (cs : Z) (reason part : string)
    (loc : QPoint.t) :
  receiveAnswer cs false reason part loc w =
  (tt, withReset w true, [Play badAudio; InfoBox_exec "Incorrect" reason]).
Proof. unfold receiveAnswer. rewrite andb_false_r. reflexivity. Qed.

Lemma receiveAnswer_final (w : TestWindow) (reason part : string) (loc : QPoint.t) :
  receiveAnswer 7 true reason part loc w =
  (tt, withLocked w loc part (QProgressBar.setValue 100 (progressBar w)),
   [Play winAudio; Emit_completedTesting; ProgressBar_setValue 100;
    ProgressLabel_show; ProgressLabel_setText "Nice Job!"]).
Proof.
  unfold receiveAnswer. cbn [Z.sub Z.add Z.opp Z.pos_sub Pos.pred_double Z.eqb Pos.eqb andb Z.succ_double Z.pred_double Z.double].
  unfold bind, set_location, dontMove_append, effect, progressBar_setValue, modify, get, ret.
  rewrite toInt_progress. change (Z.quot (100 * 6) 6) with 100.
  cbn [progressBar]. rewrite setValue_100. reflexivity.
Qed.

Lemma receiveAnswer_correct (w : TestWindow) (cs : Z) (reason part : string)
    (loc : QPoint.t) :
  cs - 1 <> 6 ->
  receiveAnswer cs true reason part loc w =
  (tt, withLocked w loc part (QProgressBar.setValue (progressOf cs) (progressBar w)),
   [Play goodAudio; ProgressBar_setValue (progressOf cs)]
   ++ (if QProgressBar.value (QProgressBar.setValue (progressOf cs) (progressBar w)) >=? 50
       then [ProgressLabel_show; ProgressLabel_setText "Almost There!"]
       else [ProgressLabel_hide])
   ++ [InfoBox_exec "Correct" reason]).
Proof.
  intros H. unfold receiveAnswer.
  destruct (Z.eqb_spec (cs - 1) 6) as [E|_]; [contradiction|]. cbn [andb].
  unfold bind, set_location, dontMove_append, effect, progressBar_setValue, modify, get, ret.
  replace (cs - 1 + 1 - 1) with (cs - 1) by lia.
  rewrite toInt_progress. fold (progressOf cs). cbn [progressBar].
  destruct (_ >=? 50); reflexivity.
Qed.

(** ** Runs of answers *)

Lemma receiveAll_cons (a : SendAnswer) (rest : list SendAnswer) (w : TestWindow) :
  stateOf (receiveAll (a :: rest) w) = stateOf (receiveAll rest (stateOf (receive a w)))
  /\ effectsOf (receiveAll (a :: rest) w) =
     effectsOf (receive a w) ++ effectsOf (receiveAll rest (stateOf (receive a w))).
Proof.
  cbn [receiveAll]. unfold bind.
  destruct (receive a w) as [[u w1] e1]. cbn [stateOf effectsOf fst snd].
  destruct (receiveAll rest w1) as [[u2 w2] e2]. cbn. auto.
Qed.

Lemma receiveAll_effects (answers : list SendAnswer) (w : TestWindow) :
  effectsOf (receiveAll answers w) = List.concat (answerEffects answers w).
Proof.
  revert w. induction answers as [|a rest IH]; intros w; [reflexivity|].
  rewrite (proj2 (receiveAll_cons a rest w)). cbn [answerEffects List.concat].
  now rewrite IH.
Qed.

Lemma progressOf_100 (cs : Z) : progressOf cs = 100 <-> cs - 1 = 6.
Proof. unfold progressOf. split; intros H; Z.to_euclidean_division_equations; lia. Qed.

Lemma progressOf_mono (a b : Z) : a <= b -> progressOf a <= progressOf b.
Proof. intros H. unfold progressOf. apply Z.quot_le_mono; lia. Qed.

Lemma progressOf_bound (cs : Z) : cs <= 7 -> progressOf cs <= 100.
Proof. intros H. unfold progressOf. Z.to_euclidean_division_equations; lia. Qed.

Lemma progressOf_range (cs : Z) : 1 <= cs <= 7 -> 0 <= progressOf cs <= 100.
Proof. intros H. unfold progressOf. Z.to_euclidean_division_equations; lia. Qed.

(** One call of [receiveAnswer], as the three cases of the answer. *)
Lemma receive_cases (a : SendAnswer) (w : TestWindow) :
  (correctness a = false /\
   receive a w = (tt, withReset w true, [Play badAudio; InfoBox_exec "Incorrect" (reason a)]))
  \/ (correctness a = true /\ currentStep a = 7 /\
      receive a w =
      (tt, withLocked w (newLocation a) (part a)
             (QProgressBar.setValue 100 (progressBar w)),
       [Play winAudio; Emit_completedTesting; ProgressBar_setValue 100;
        ProgressLabel_show; ProgressLabel_setText "Nice Job!"]))
  \/ (correctness a = true /\ currentStep a - 1 <> 6 /\
      receive a w =
      (tt, withLocked w (newLocation a) (part a)
             (QProgressBar.setValue (progressOf (currentStep a)) (progressBar w)),
       [Play goodAudio; ProgressBar_setValue (progressOf (currentStep a))]
       ++ (if QProgressBar.value
                (QProgressBar.setValue (progressOf (currentStep a)) (progressBar w)) >=? 50
           then [ProgressLabel_show; ProgressLabel_setText "Almost There!"]
           else [ProgressLabel_hide])
       ++ [InfoBox_exec "Correct" (reason a)])).
Proof.
  unfold receive. destruct a as [cs c r p l]. cbn [currentStep correctness reason part newLocation].
  destruct c.
  - destruct (Z.eq_dec (cs - 1) 6) as [E|E].
    + right; left. assert (cs = 7) as -> by lia.
      repeat split. apply receiveAnswer_final.
    + right; right. repeat split; auto. now apply receiveAnswer_correct.
  - left. split; auto. apply receiveAnswer_incorrect.
Qed.

Lemma receive_dontMove (a : SendAnswer) (w : TestWindow) :
  dontMove (stateOf (receive a w)) =
  dontMove w ++ (if correctness a then [part a] else []).
Proof.
  destruct (receive_cases a w) as [[Hc E] | [[Hc [Hs E]] | [Hc [Hs E]]]];
    rewrite E, Hc; cbn [stateOf fst snd withLocked withReset dontMove];
    rewrite ?app_nil_r; reflexivity.
Qed.

(** With a checker that counts, the final placement is the correct one
    that brings the number of locked components to 6. *)
Lemma isFinal_lockedAfter (answers : list SendAnswer) (w : TestWindow) (n : Z) :
  checkerCounts n answers ->
  Z.of_nat (List.length (dontMove w)) - 2 = n ->
  map isFinal answers =
  map (fun p => correctness (fst p) && (snd p =? 6))
      (combine answers (lockedAfter answers w)).
Proof.
  revert w n. induction answers as [|a rest IH]; intros w n Hc Hw; [reflexivity|].
  cbn [checkerCounts] in Hc. destruct Hc as [Hs Hrest].
  cbn [lockedAfter combine map fst snd].
  assert (Z.of_nat (List.length (dontMove (stateOf (receive a w)))) - 2
          = (if correctness a then n + 1 else n)) as Hlen.
  { rewrite receive_dontMove, length_app.
    destruct (correctness a); cbn [List.length]; lia. }
  f_equal.
  - unfold isFinal. rewrite Hlen, Hs.
    replace ((if correctness a then n + 1 else n) + 1 - 1)
      with (if correctness a then n + 1 else n) by lia.
    apply andb_comm.
  - apply IH with (n := if correctness a then n + 1 else n); assumption.
Qed.

(** C2.  The completion outcome - the [completedTesting] signal that opens
    the win window, the win sound, the progress set to 100 and the
    "Nice Job!" label - is produced by a call of [receiveAnswer] if and only
    if the placement is correct and the step counter, less one, is 6; over
    any run of answers it appears on exactly those calls and on no other,
    correct or incorrect.  When the checker's counter is one more than the
    number of correct placements, these are the correct placements that
    bring the number of locked components to 6. *)
Theorem completion_exactness (w : TestWindow) (answers : list SendAnswer) :
  (forall (a : SendAnswer) (w' : TestWindow),
      let r := receive a w' in
      existsb is_completedTesting (effectsOf r) = isFinal a
      /\ existsb is_winSound (effectsOf r) = isFinal a
      /\ existsb is_progress100 (effectsOf r) = isFinal a
      /\ existsb is_niceJob (effectsOf r) = isFinal a
      /\ (isFinal a = true <->
          currentStep a - 1 = 6 /\ correctness a = true)
      /\ (isFinal a = true ->
          QProgressBar.value (progressBar (stateOf r)) = 100))
  /\ map (existsb is_completedTesting) (answerEffects answers w) = map isFinal answers
  /\ map (existsb is_winSound) (answerEffects answers w) = map isFinal answers
  /\ map (existsb is_progress100) (answerEffects answers w) = map isFinal answers
  /\ map (existsb is_niceJob) (answerEffects answers w) = map isFinal answers
  /\ (forall n,
         checkerCounts n answers ->
         Z.of_nat (List.length (dontMove w)) - 2 = n ->
         map (existsb is_completedTesting) (answerEffects answers w) =
         map (fun p => correctness (fst p) && (snd p =? 6))
             (combine answers (lockedAfter answers w))).
Proof.
  assert (forall (a : SendAnswer) (w' : TestWindow),
      let r := receive a w' in
      existsb is_completedTesting (effectsOf r) = isFinal a
      /\ existsb is_winSound (effectsOf r) = isFinal a
      /\ existsb is_progress100 (effectsOf r) = isFinal a
      /\ existsb is_niceJob (effectsOf r) = isFinal a
      /\ (isFinal a = true <-> currentStep a - 1 = 6 /\ correctness a = true)
      /\ (isFinal a = true -> QProgressBar.value (progressBar (stateOf r)) = 100))
    as One.
  { intros a w' r. subst r. unfold isFinal.
    assert ((currentStep a - 1 =? 6) && correctness a = true <->
            currentStep a - 1 = 6 /\ correctness a = true) as Iff
      by (rewrite andb_true_iff, Z.eqb_eq; tauto).
    destruct (receive_cases a w') as [[Hc E] | [[Hc [Hs E]] | [Hc [Hs E]]]];
      rewrite E, Hc; cbn [effectsOf stateOf fst snd].
    - rewrite andb_false_r. cbn. repeat split; intros; try discriminate; intuition congruence.
    - rewrite Hs. cbn [Z.sub Z.add Z.opp Z.pos_sub Pos.pred_double Z.eqb Pos.eqb andb].
      cbn [existsb is_completedTesting is_winSound is_progress100 is_niceJob orb
           Z.eqb Pos.eqb String.eqb Ascii.eqb Bool.eqb withLocked progressBar].
      repeat split; intros; auto; try lia. apply setValue_100.
    - destruct (Z.eqb_spec (currentStep a - 1) 6) as [F|_]; [contradiction|].
      cbn [andb]. rewrite !existsb_app. cbn [existsb is_progress100 orb].
      destruct (Z.eqb_spec (progressOf (currentStep a)) 100) as [F|_];
        [apply progressOf_100 in F; contradiction|].
      destruct (_ >=? 50); cbn; repeat split; intros; try discriminate;
        intuition congruence. }
  split; [exact One|].
  assert (forall w', map (existsb is_completedTesting) (answerEffects answers w') = map isFinal answers
                     /\ map (existsb is_winSound) (answerEffects answers w') = map isFinal answers
                     /\ map (existsb is_progress100) (answerEffects answers w') = map isFinal answers
                     /\ map (existsb is_niceJob) (answerEffects answers w') = map isFinal answers)
    as Run.
  { induction answers as [|a rest IH]; intros w'; [cbn; auto|].
    cbn [answerEffects map].
    destruct (One a w') as (H1 & H2 & H3 & H4 & _).
    destruct (IH (stateOf (receive a w'))) as (I1 & I2 & I3 & I4).
    rewrite H1, H2, H3, H4, I1, I2, I3, I4. auto. }
  destruct (Run w) as (R1 & R2 & R3 & R4). repeat split; try assumption.
  intros n Hn Hw. rewrite R1. now apply isFinal_lockedAfter with (n := n).
Qed.

Lemma completion_exactness_witness :
  checkerCounts 0 sampleRun
  /\ lockedAfter sampleRun (initialWindow (QProgressBar.mk 0)) = [0; 1; 2; 2; 3; 4; 5; 6]
  /\ map (existsb is_completedTesting)
         (answerEffects sampleRun (initialWindow (QProgressBar.mk 0)))
     = [false; false; false; false; false; false; false; true].
Proof.
  assert (checkerCounts 0 sampleRun) as H by (cbn; repeat split).
  split; [exact H|]. split; [reflexivity|].
  exact (proj2 (proj2 (proj2 (proj2 (proj2
           (completion_exactness (initialWindow (QProgressBar.mk 0)) sampleRun)))))
           0 H eq_refl).
Defined.

(** ** Progress *)

Lemma receive_written (a : SendAnswer) (w : TestWindow) :
  writtenValues (effectsOf (receive a w)) =
  if correctness a then [progressOf (currentStep a)] else [].
Proof.
  destruct (receive_cases a w) as [[Hc E] | [[Hc [Hs E]] | [Hc [Hs E]]]];
    rewrite E, Hc; cbn [effectsOf snd].
  - reflexivity.
  - rewrite Hs. reflexivity.
  - unfold writtenValues. rewrite !flat_map_app.
    destruct (_ >=? 50); reflexivity.
Qed.

Lemma progressWrites_cons (a : SendAnswer) (rest : list SendAnswer) (w : TestWindow) :
  progressWrites (a :: rest) w =
  (if correctness a then [progressOf (currentStep a)] else [])
  ++ progressWrites rest (stateOf (receive a w)).
Proof.
  unfold progressWrites. rewrite (proj2 (receiveAll_cons a rest w)).
  unfold writtenValues at 1. rewrite flat_map_app.
  fold (writtenValues (effectsOf (receive a w))). now rewrite receive_written.
Qed.

Lemma progressWrites_Forall (P : Z -> Prop) (answers : list SendAnswer) (w : TestWindow) :
  Forall (fun a => P (progressOf (currentStep a))) answers ->
  Forall P (progressWrites answers w).
Proof.
  revert w. induction answers as [|a rest IH]; intros w H.
  - constructor.
  - rewrite progressWrites_cons. inversion H as [|? ? Ha Hrest]; subst.
    apply Forall_app. split; [|now apply IH].
    destruct (correctness a); auto.
Qed.

Lemma progressWrites_sorted (answers : list SendAnswer) (w : TestWindow) :
  StronglySorted Z.le (map currentStep answers) ->
  StronglySorted Z.le (progressWrites answers w).
Proof.
  revert w. induction answers as [|a rest IH]; intros w H.
  - constructor.
  - rewrite progressWrites_cons. cbn [map] in H.
    apply StronglySorted_inv in H. destruct H as [Hrest Ha].
    destruct (correctness a); cbn [app]; [|now apply IH].
    constructor; [now apply IH|].
    apply progressWrites_Forall. rewrite Forall_map in Ha.
    eapply Forall_impl; [|exact Ha]. intros b Hb. now apply progressOf_mono.
Qed.

(** C3 (as amended).  Over any run of answers in which the step counter
    reported by the checker never decreases and never exceeds 7, the values
    written to the progress bar never decrease and never exceed 100; an
    incorrect placement writes nothing and leaves the bar as it is; a correct
    placement writes (step - 1)/6 of 100 with the fraction dropped, which the
    bar then shows when the step is in 1..7. *)
Theorem progress_monotone (w : TestWindow) (answers : list SendAnswer) :
  Sorted Z.le (map currentStep answers) ->
  Forall (fun a => currentStep a <= 7) answers ->
  Sorted Z.le (progressWrites answers w)
  /\ Forall (fun v => v <= 100) (progressWrites answers w)
  /\ (forall a w', correctness a = false ->
        writtenValues (effectsOf (receive a w')) = []
        /\ progressBar (stateOf (receive a w')) = progressBar w')
  /\ (forall a w', correctness a = true ->
        writtenValues (effectsOf (receive a w')) =
          [toInt (inject_Z (currentStep a - 1) / 6.0 * 100.0)%Q]
        /\ toInt (inject_Z (currentStep a - 1) / 6.0 * 100.0)%Q =
           Z.quot (100 * (currentStep a - 1)) 6
        /\ (1 <= currentStep a <= 7 ->
            QProgressBar.value (progressBar (stateOf (receive a w'))) =
            Z.quot (100 * (currentStep a - 1)) 6)).
Proof.
  intros Hs Hb. repeat split.
  - apply StronglySorted_Sorted, progressWrites_sorted.
    apply Sorted_StronglySorted; [|exact Hs]. intros x y z; apply Z.le_trans.
  - apply progressWrites_Forall. eapply Forall_impl; [|exact Hb].
    intros a Ha. now apply progressOf_bound.
  - rewrite receive_written. now rewrite H.
  - destruct (receive_cases a w') as [[Hc E] | [[Hc _] | [Hc _]]]; try congruence.
    now rewrite E.
  - rewrite receive_written, H, toInt_progress. reflexivity.
  - apply toInt_progress.
  - intros Hr. pose proof (progressOf_range _ Hr) as R.
    destruct (receive_cases a w') as [[Hc E] | [[Hc [Hs' E]] | [Hc [Hs' E]]]];
      try congruence; rewrite E; cbn [stateOf fst snd withLocked progressBar].
    + rewrite Hs'. apply setValue_100.
    + now apply setValue_in_range.
Qed.

Lemma progress_monotone_witness :
  progressWrites sampleRun (initialWindow (QProgressBar.mk 0)) = [16; 33; 50; 66; 83; 100]
  /\ Sorted Z.le (progressWrites sampleRun (initialWindow (QProgressBar.mk 0)))
  /\ Forall (fun v => v <= 100) (progressWrites sampleRun (initialWindow (QProgressBar.mk 0))).
Proof.
  split; [reflexivity|].
  assert (Sorted Z.le (map currentStep sampleRun)) as Hs
    by (cbn; repeat constructor; lia).
  assert (Forall (fun a => currentStep a <= 7) sampleRun) as Hb
    by (cbn; repeat constructor; cbn; lia).
  destruct (progress_monotone (initialWindow (QProgressBar.mk 0)) sampleRun Hs Hb)
    as (H1 & H2 & _).
  split; assumption.
Defined.

(** C3, as stated, fails when the counter only never decreases: a correct
    placement reported at step 8 writes 116 to the progress bar. *)
Lemma progress_monotone_counterexample :
  let run := [mkSendAnswer 8 true "" "ramLabel2" (QPoint.mk 443 270)] in
  Sorted Z.le (map currentStep run)
  /\ progressWrites run (initialWindow (QProgressBar.mk 0)) = [116]
  /\ ~ Forall (fun v => v <= 100) (progressWrites run (initialWindow (QProgressBar.mk 0))).
Proof.
  cbv zeta. split; [cbn; repeat constructor|]. split; [reflexivity|].
  intros H. change (Forall (fun v => v <= 100) [116]) in H.
  inversion H as [|? ? H1 _]. lia.
Qed.

Lemma setValue_cases (v : Z) (b : QProgressBar.t) :
  QProgressBar.value (QProgressBar.setValue v b) = QProgressBar.value b
  \/ (QProgressBar.value (QProgressBar.setValue v b) = v /\ 0 <= v <= 100).
Proof.
  unfold QProgressBar.setValue, QProgressBar.maximum, QProgressBar.minimum.
  destruct (Z.eqb_spec (QProgressBar.value b) v); cbn [orb]; [now left|].
  destruct (Z.gtb_spec v 100); cbn [orb andb negb Z.eqb]; [now left|].
  destruct (Z.ltb_spec v 0); cbn [orb andb negb Z.eqb]; [now left|].
  right. cbn. lia.
Qed.

Lemma receive_bar (a : SendAnswer) (w : TestWindow) :
  let b' := QProgressBar.value (progressBar (stateOf (receive a w))) in
  b' = QProgressBar.value (progressBar w)
  \/ (b' = progressOf (currentStep a) /\ 0 <= progressOf (currentStep a) <= 100).
Proof.
  cbv zeta.
  destruct (receive_cases a w) as [[Hc E] | [[Hc [Hs E]] | [Hc [Hs E]]]];
    rewrite E; cbn [stateOf fst snd withReset withLocked progressBar].
  - now left.
  - rewrite Hs. change (progressOf 7) with 100. apply setValue_cases.
  - apply setValue_cases.
Qed.

Lemma barValues_sorted (answers : list SendAnswer) (w : TestWindow) :
  StronglySorted Z.le (map currentStep answers) ->
  (forall a, In a answers -> 0 <= progressOf (currentStep a) ->
             QProgressBar.value (progressBar w) <= progressOf (currentStep a)) ->
  QProgressBar.value (progressBar w) <= 100 ->
  Sorted Z.le (QProgressBar.value (progressBar w) :: barValues answers w)
  /\ Forall (fun v => v <= 100) (barValues answers w).
Proof.
  revert w. induction answers as [|a rest IH]; intros w Hs Hlow Hmax.
  - split; repeat constructor.
  - cbn [map] in Hs. apply StronglySorted_inv in Hs. destruct Hs as [Hrest Ha].
    rewrite Forall_map in Ha. rewrite Forall_forall in Ha.
    cbn [barValues].
    set (w' := stateOf (receive a w)).
    assert (QProgressBar.value (progressBar w) <= QProgressBar.value (progressBar w')
            /\ QProgressBar.value (progressBar w') <= 100
            /\ (forall a', In a' rest -> 0 <= progressOf (currentStep a') ->
                           QProgressBar.value (progressBar w') <= progressOf (currentStep a')))
      as (H1 & H2 & H3).
    { destruct (receive_bar a w) as [E | [E R]]; fold w' in E; rewrite E.
      - repeat split; try lia. intros a' Ha' P. apply Hlow; [now right|exact P].
      - repeat split; try lia.
        + apply Hlow; [now left|lia].
        + intros a' Ha' _. apply progressOf_mono. now apply Ha. }
    destruct (IH w' Hrest H3 H2) as [I1 I2]. split.
    + constructor; [exact I1|]. now constructor.
    + constructor; assumption.
Qed.

(** With Qt's range check the bar itself never goes down and never passes
    100 once it starts at 0 or below, on any run whose step counter never
    decreases. *)
Lemma progressBar_never_decreases (w : TestWindow) (answers : list SendAnswer) :
  Sorted Z.le (map currentStep answers) ->
  QProgressBar.value (progressBar w) <= 0 ->
  Sorted Z.le (QProgressBar.value (progressBar w) :: barValues answers w)
  /\ Forall (fun v => v <= 100) (barValues answers w).
Proof.
  intros Hs H0. apply barValues_sorted.
  - apply Sorted_StronglySorted; [|exact Hs]. intros x y z; apply Z.le_trans.
  - intros a _ P. lia.
  - lia.
Qed.

(** ** Locking and reverting *)

Lemma contains_In (l : list string) (name : string) : contains l name = true <-> In name l.
Proof.
  unfold contains. rewrite existsb_exists. split.
  - intros [x [Hx E]]. apply String.eqb_eq in E. now subst.
  - intros H. exists name. split; [exact H|apply String.eqb_refl].
Qed.

Lemma receive_fields (a : SendAnswer) (w : TestWindow) :
  let w' := stateOf (receive a w) in
  lastSize w' = lastSize w /\ lastName w' = lastName w
  /\ dontMove w' = dontMove w ++ (if correctness a then [part a] else [])
  /\ location w' = (if correctness a then newLocation a else location w)
  /\ reset w' = (if correctness a then reset w else true)
  /\ (forall name, existsb (is_checkAnswer_for name) (effectsOf (receive a w)) = false)
  /\ existsb is_iconMove (effectsOf (receive a w)) = false.
Proof.
  destruct (receive_cases a w) as [[Hc E] | [[Hc [Hs E]] | [Hc [Hs E]]]];
    rewrite E, Hc; cbn [stateOf effectsOf fst snd withLocked withReset lastSize
                        lastName dontMove location reset];
    rewrite ?app_nil_r; repeat split; try reflexivity;
    intros; rewrite ?existsb_app; destruct (_ >=? 50); reflexivity.
Qed.

Lemma receiveAll_nil (w : TestWindow) : receiveAll [] w = (tt, w, []).
Proof. reflexivity. Qed.

Lemma receiveAll_fields (answers : list SendAnswer) (w : TestWindow) :
  let w' := stateOf (receiveAll answers w) in
  lastSize w' = lastSize w /\ lastName w' = lastName w
  /\ (forall name, In name (dontMove w) -> In name (dontMove w'))
  /\ (forall a, In a answers -> correctness a = true -> In (part a) (dontMove w'))
  /\ (Forall (fun a => correctness a = false) answers ->
      dontMove w' = dontMove w /\ location w' = location w
      /\ progressBar w' = progressBar w
      /\ reset w' = (match answers with [] => reset w | _ => true end))
  /\ (Forall (fun a => correctness a = true) answers -> reset w' = reset w)
  /\ (forall name, existsb (is_checkAnswer_for name) (effectsOf (receiveAll answers w)) = false)
  /\ existsb is_iconMove (effectsOf (receiveAll answers w)) = false.
Proof.
  revert w. induction answers as [|a rest IH]; intros w.
  - cbn. repeat split; auto; intros; contradiction.
  - cbv zeta. destruct (receiveAll_cons a rest w) as [-> ->].
    destruct (receive_fields a w) as (F1 & F2 & F3 & F4 & F5 & F6 & F7).
    destruct (IH (stateOf (receive a w))) as (I1 & I2 & I3 & I4 & I5 & I6 & I7 & I8).
    cbv zeta in *. repeat split.
    + congruence.
    + congruence.
    + intros name H. apply I3. rewrite F3. apply in_or_app. now left.
    + intros b [<- | Hb] Hc; [|now apply I4].
      apply I3. rewrite F3, Hc. apply in_or_app. right. now left.
    + inversion H as [|? ? Ha Hr]; subst. destruct (I5 Hr) as (J1 & _).
      rewrite J1, F3, Ha. apply app_nil_r.
    + inversion H as [|? ? Ha Hr]; subst. destruct (I5 Hr) as (_ & J2 & _).
      rewrite J2, F4, Ha. reflexivity.
    + inversion H as [|? ? Ha Hr]; subst. destruct (I5 Hr) as (_ & _ & J3 & _).
      rewrite J3. destruct (receive_cases a w) as [[Hc E] | [[Hc _] | [Hc _]]];
        try congruence. now rewrite E.
    + inversion H as [|? ? Ha Hr]; subst. destruct (I5 Hr) as (_ & _ & _ & J4).
      rewrite J4, F5, Ha. now destruct rest.
    + intros H. inversion H as [|? ? Ha Hr]; subst. rewrite (I6 Hr), F5, Ha. reflexivity.
    + intros name. rewrite existsb_app, F6, I7. reflexivity.
    + rewrite existsb_app, F7, I8. reflexivity.
Qed.

(** [dropEvent] on a drop that carries the item data, in one equation. *)
Lemma dropEvent_eq (src : bool) (cursor : QPoint.t) (step : Z)
    (answers : list SendAnswer) (w : TestWindow) :
  let newLocal := snapLocation w step cursor in
  let w' := stateOf (receiveAll answers w) in
  dropEvent true src cursor step answers w =
  (Some (if reset w' then location w' else newLocal),
   (if reset w' then withReset w' false else w'),
   [NewIcon_show (lastName w) newLocal (lastSize w)]
   ++ (if src then [Event_setDropAction_Move; Event_accept]
       else [Event_acceptProposedAction])
   ++ [Emit_checkAnswer (lastName w) newLocal]
   ++ effectsOf (receiveAll answers w)
   ++ (if reset w' then [NewIcon_move (location w')] else [])).
Proof.
  cbv zeta. unfold dropEvent, emit_checkAnswer, bind, effect, get, ret, set_reset, modify.
  destruct src; destruct (receiveAll answers w) as [[u w'] e];
    cbn [stateOf effectsOf fst snd app];
    destruct (reset w'); cbn [app]; rewrite ?app_nil_r; reflexivity.
Qed.

Lemma mousePressEvent_locked (c : QLabel) (drag : DragEnd) (w : TestWindow) :
  In (objectName c) (dontMove w) -> mousePressEvent (Some c) drag w = (tt, w, []).
Proof.
  intros H. apply contains_In in H. unfold mousePressEvent, bind, get.
  now rewrite H.
Qed.

Lemma mousePressEvent_drop (c : QLabel) (d : DropOnWindow) (w : TestWindow) :
  ~ In (objectName c) (dontMove w) ->
  let r := dropEvent true true (dropCursor d) (dropStep d) (dropAnswers d) (afterPress w c) in
  mousePressEvent (Some c) (DroppedOnWindow d) w =
  (tt, stateOf r, effectsOf r ++ [Child_close (objectName c)]).
Proof.
  intros H. rewrite <- contains_In in H. apply not_true_is_false in H.
  cbv zeta. unfold mousePressEvent, bind, get. rewrite H.
  unfold set_lastSize, set_lastName, set_location, modify, effect.
  cbn [lastSize lastName location dontMove reset progressBar]. fold (afterPress w c).
  destruct (dropEvent _ _ _ _ _) as [[v w'] e]. reflexivity.
Qed.

Lemma mousePressEvent_no_drop (c : QLabel) (w : TestWindow) :
  ~ In (objectName c) (dontMove w) ->
  mousePressEvent (Some c) NotMoved w = (tt, afterPress w c, [Child_show (objectName c)]).
Proof.
  intros H. rewrite <- contains_In in H. apply not_true_is_false in H.
  unfold mousePressEvent, bind, get. rewrite H. reflexivity.
Qed.

Lemma mousePressEvent_moved_elsewhere (c : QLabel) (w : TestWindow) :
  ~ In (objectName c) (dontMove w) ->
  mousePressEvent (Some c) MovedElsewhere w =
  (tt, afterPress w c, [Child_close (objectName c)]).
Proof.
  intros H. rewrite <- contains_In in H. apply not_true_is_false in H.
  unfold mousePressEvent, bind, get. rewrite H. reflexivity.
Qed.

Lemma filter_none {A} (f : A -> bool) (l : list A) : existsb f l = false -> filter f l = [].
Proof.
  induction l as [|a l IH]; cbn; [reflexivity|].
  destruct (f a); cbn; [discriminate|exact IH].
Qed.

Lemma mousePressEvent_keeps_locked (child : option QLabel) (drag : DragEnd)
    (w : TestWindow) (name : string) :
  In name (dontMove w) ->
  In name (dontMove (stateOf (mousePressEvent child drag w)))
  /\ existsb (is_checkAnswer_for name) (effectsOf (mousePressEvent child drag w)) = false.
Proof.
  intros H. destruct child as [c|]; [|now split].
  destruct (in_dec string_dec (objectName c) (dontMove w)) as [L|L].
  - rewrite mousePressEvent_locked by exact L. now split.
  - destruct drag as [d| |].
    + rewrite mousePressEvent_drop by exact L. rewrite dropEvent_eq.
      cbn [stateOf effectsOf fst snd].
      destruct (receiveAll_fields (dropAnswers d) (afterPress w c))
        as (_ & _ & I3 & _ & _ & _ & I7 & _). cbv zeta in I3.
      split.
      * destruct (reset _); cbn [withReset dontMove]; apply I3; exact H.
      * cbn [lastName afterPress app existsb is_checkAnswer_for orb].
        rewrite !existsb_app, I7. cbn [existsb is_checkAnswer_for orb].
        assert (String.eqb (objectName c) name = false) as ->.
        { apply String.eqb_neq. intros E. apply L. now rewrite E. }
        destruct (reset _); reflexivity.
    + rewrite mousePressEvent_moved_elsewhere by exact L. now split.
    + rewrite mousePressEvent_no_drop by exact L. now split.
Qed.

Lemma session_cons (child : option QLabel) (drag : DragEnd)
    (rest : list (option QLabel * DragEnd)) (w : TestWindow) :
  stateOf (session ((child, drag) :: rest) w) =
    stateOf (session rest (stateOf (mousePressEvent child drag w)))
  /\ effectsOf (session ((child, drag) :: rest) w) =
     effectsOf (mousePressEvent child drag w)
     ++ effectsOf (session rest (stateOf (mousePressEvent child drag w))).
Proof.
  cbn [session]. unfold bind.
  destruct (mousePressEvent child drag w) as [[u w1] e1]. cbn [stateOf effectsOf fst snd].
  destruct (session rest w1) as [[u2 w2] e2]. cbn. auto.
Qed.

Lemma session_keeps_locked (gestures : list (option QLabel * DragEnd))
    (w : TestWindow) (name : string) :
  In name (dontMove w) ->
  In name (dontMove (stateOf (session gestures w)))
  /\ existsb (is_checkAnswer_for name) (effectsOf (session gestures w)) = false.
Proof.
  revert w. induction gestures as [|[child drag] rest IH]; intros w H; [now split|].
  destruct (session_cons child drag rest w) as [-> ->].
  destruct (mousePressEvent_keeps_locked child drag w name H) as [K1 K2].
  destruct (IH _ K1) as [J1 J2]. split; [exact J1|].
  now rewrite existsb_app, K2, J2.
Qed.

Lemma receiveAnswer_locks (w : TestWindow) (cs : Z) (r p : string) (loc : QPoint.t) :
  In p (dontMove (stateOf (receiveAnswer cs true r p loc w))).
Proof.
  pose proof (receive_fields (mkSendAnswer cs true r p loc) w) as (_ & _ & F3 & _).
  unfold receive in F3. cbn [currentStep correctness reason part newLocation] in F3.
  rewrite F3. apply in_or_app. right. now left.
Qed.

(** C4 (as amended).  A component judged correct is added to [dontMove] and
    stays there; [mousePressEvent] returns at once for a label whose object
    name is in [dontMove], changing no state and starting no drag; so in any
    session of presses and the drags they start, however these end, no
    [checkAnswer] is emitted again for a locked component.  [dropEvent]
    itself does not read [dontMove]: every drop that reaches it with the
    item data is sent to the checker under [lastName], locked or not. *)
Theorem locked_never_reevaluated :
  (forall w cs reason part loc,
      In part (dontMove (stateOf (receiveAnswer cs true reason part loc w))))
  /\ (forall w c drag,
         In (objectName c) (dontMove w) ->
         mousePressEvent (Some c) drag w = (tt, w, []))
  /\ (forall w gestures name,
         In name (dontMove w) ->
         In name (dontMove (stateOf (session gestures w)))
         /\ existsb (is_checkAnswer_for name) (effectsOf (session gestures w)) = false)
  /\ (forall w cs reason part loc gestures,
         let w' := stateOf (receiveAnswer cs true reason part loc w) in
         existsb (is_checkAnswer_for part) (effectsOf (session gestures w')) = false
         /\ In part (dontMove (stateOf (session gestures w'))))
  /\ (forall w src cursor step answers,
         In (Emit_checkAnswer (lastName w) (snapLocation w step cursor))
            (effectsOf (dropEvent true src cursor step answers w))).
Proof.
  split; [exact receiveAnswer_locks|]. split.
  { intros w c drag H. now apply mousePressEvent_locked. }
  split.
  { intros w gestures name H. now apply session_keeps_locked. }
  split.
  { intros w cs reason part loc gestures w'.
    destruct (session_keeps_locked gestures w' part (receiveAnswer_locks w cs reason part loc))
      as [H1 H2].
    split; assumption. }
  intros w src cursor step answers. rewrite dropEvent_eq. cbn [effectsOf snd].
  apply in_or_app. right. apply in_or_app. right. now left.
Qed.

Lemma locked_never_reevaluated_witness :
  In "motherboardLabel"%string (dontMove motherboardPlaced)
  /\ mousePressEvent
       (Some (mkQLabel "motherboardLabel" (QSize.mk 300 300) (QPoint.mk 200 245)))
       (DroppedOnWindow (mkDropOnWindow (QPoint.mk 700 100) 2 []))
       motherboardPlaced
     = (tt, motherboardPlaced, []).
Proof.
  assert (In "motherboardLabel"%string (dontMove motherboardPlaced)) as H
    by (cbn; tauto).
  split; [exact H|].
  exact (proj1 (proj2 locked_never_reevaluated) motherboardPlaced
           (mkQLabel "motherboardLabel" (QSize.mk 300 300) (QPoint.mk 200 245))
           (DroppedOnWindow (mkDropOnWindow (QPoint.mk 700 100) 2 [])) H).
Defined.

(** C4, as stated, fails for a drop that does not come from a press on this
    window: with the motherboard placed and locked, a drop from another drag
    source is handled by [dropEvent], which shows an icon named
    "motherboardLabel", emits [checkAnswer] for it and hands the checker's
    answer to [receiveAnswer]. *)
Lemma locked_never_reevaluated_counterexample :
  In "motherboardLabel"%string (dontMove motherboardPlaced)
  /\ effectsOf (dropEvent true false (QPoint.mk 700 100) 2
                  [mkSendAnswer 2 false "The motherboard is already placed."
                     "motherboardLabel" (QPoint.mk 550 (-50))]
                  motherboardPlaced)
     = [NewIcon_show "motherboardLabel" (QPoint.mk 550 (-50)) (QSize.mk 300 300);
        Event_acceptProposedAction;
        Emit_checkAnswer "motherboardLabel" (QPoint.mk 550 (-50));
        Play badAudio;
        InfoBox_exec "Incorrect" "The motherboard is already placed.";
        NewIcon_move (QPoint.mk 200 245)].
Proof. split; [cbn; tauto|reflexivity]. Qed.

(** C5.  An incorrect placement changes nothing but the revert flag:
    [receiveAnswer] with [correctness = false] leaves [dontMove], the saved
    [location] and the progress bar as they are and sets [reset]; the drop
    handler then moves the dropped icon to [location], which is the
    position the component had when it was pressed, and clears the flag, so
    that a later drop is not reverted by it. *)
Theorem incorrect_placement_reverts (w : TestWindow) :
  (forall cs reason part loc,
      let r := receiveAnswer cs false reason part loc w in
      stateOf r = withReset w true
      /\ dontMove (stateOf r) = dontMove w
      /\ location (stateOf r) = location w
      /\ progressBar (stateOf r) = progressBar w
      /\ reset (stateOf r) = true
      /\ writtenValues (effectsOf r) = [])
  /\ (forall src cursor step a,
         correctness a = false ->
         let r := dropEvent true src cursor step [a] w in
         valueOf r = Some (location w)
         /\ filter is_iconMove (effectsOf r) = [NewIcon_move (location w)]
         /\ reset (stateOf r) = false
         /\ dontMove (stateOf r) = dontMove w
         /\ progressBar (stateOf r) = progressBar w)
  /\ (forall c d a,
         ~ In (objectName c) (dontMove w) ->
         dropAnswers d = [a] -> correctness a = false ->
         let r := mousePressEvent (Some c) (DroppedOnWindow d) w in
         filter is_iconMove (effectsOf r) = [NewIcon_move (pos c)]
         /\ reset (stateOf r) = false
         /\ dontMove (stateOf r) = dontMove w
         /\ progressBar (stateOf r) = progressBar w)
  /\ (forall src cursor step answers,
         reset (stateOf (dropEvent true src cursor step answers w)) = false)
  /\ (forall src cursor step a src' cursor' step' answers',
         correctness a = false ->
         Forall (fun b => correctness b = true) answers' ->
         let w1 := stateOf (dropEvent true src cursor step [a] w) in
         let r := dropEvent true src' cursor' step' answers' w1 in
         valueOf r = Some (snapLocation w1 step' cursor')
         /\ filter is_iconMove (effectsOf r) = []).
Proof.
  assert (forall (v : TestWindow) src cursor step a,
             correctness a = false ->
             let r := dropEvent true src cursor step [a] v in
             valueOf r = Some (location v)
             /\ filter is_iconMove (effectsOf r) = [NewIcon_move (location v)]
             /\ reset (stateOf r) = false
             /\ dontMove (stateOf r) = dontMove v
             /\ progressBar (stateOf r) = progressBar v) as Drop.
  { intros v src cursor step a Ha r. subst r. rewrite dropEvent_eq.
    destruct (receiveAll_fields [a] v) as (_ & _ & _ & _ & I5 & _ & _ & I8).
    cbv zeta in I5. destruct (I5 (Forall_cons _ Ha (Forall_nil _))) as (J1 & J2 & J3 & J4).
    rewrite J4, J2. cbn [valueOf stateOf effectsOf fst snd withReset reset dontMove progressBar].
    repeat split; auto.
    rewrite !filter_app, (filter_none _ _ I8). destruct src; reflexivity. }
  assert (forall (v : TestWindow) src cursor step answers,
             reset (stateOf (dropEvent true src cursor step answers v)) = false) as Clear.
  { intros v src cursor step answers. rewrite dropEvent_eq. cbn [stateOf fst snd].
    destruct (reset (stateOf (receiveAll answers v))) eqn:E; [reflexivity|exact E]. }
  split.
  { intros cs reason part loc r. subst r. rewrite receiveAnswer_incorrect.
    cbn. repeat split; reflexivity. }
  split; [apply Drop|]. split.
  { intros c d a L Hd Ha r. subst r. rewrite mousePressEvent_drop by exact L.
    rewrite Hd. cbn [stateOf effectsOf fst snd].
    destruct (Drop (afterPress w c) true (dropCursor d) (dropStep d) a Ha)
      as (_ & D2 & D3 & D4 & D5).
    rewrite filter_app, D2. cbn [filter is_iconMove app afterPress location].
    repeat split; assumption. }
  split; [apply Clear|].
  intros src cursor step a src' cursor' step' answers' Ha Hall w1 r. subst r.
  rewrite dropEvent_eq.
  destruct (receiveAll_fields answers' w1) as (_ & _ & _ & _ & _ & I6 & _ & I8).
  cbv zeta in I6. assert (reset w1 = false) as E by apply Clear.
  rewrite (I6 Hall), E.
  cbn [valueOf effectsOf fst snd]. split; [reflexivity|].
  rewrite !filter_app, (filter_none _ _ I8). destruct src'; reflexivity.
Qed.

Lemma incorrect_placement_reverts_witness :
  let cpu := mkQLabel "cpuLabel" (QSize.mk 80 80) (QPoint.mk 600 100) in
  let d := mkDropOnWindow (QPoint.mk 320 300) 1
             [mkSendAnswer 1 false "Place the motherboard first." "cpuLabel"
                (QPoint.mk 200 245)] in
  let r := mousePressEvent (Some cpu) (DroppedOnWindow d) (initialWindow (QProgressBar.mk 0)) in
  filter is_iconMove (effectsOf r) = [NewIcon_move (QPoint.mk 600 100)]
  /\ reset (stateOf r) = false
  /\ dontMove (stateOf r) = ["caseLabel"; "centralwidget"]%string
  /\ progressBar (stateOf r) = QProgressBar.mk 0.
Proof.
  cbv zeta.
  refine (proj1 (proj2 (proj2 (incorrect_placement_reverts
                                 (initialWindow (QProgressBar.mk 0)))))
            (mkQLabel "cpuLabel" (QSize.mk 80 80) (QPoint.mk 600 100))
            (mkDropOnWindow (QPoint.mk 320 300) 1
               [mkSendAnswer 1 false "Place the motherboard first." "cpuLabel"
                  (QPoint.mk 200 245)])
            (mkSendAnswer 1 false "Place the motherboard first." "cpuLabel"
               (QPoint.mk 200 245)) _ eq_refl eq_refl).
  cbn. intros [H | [H | []]]; discriminate.
Defined.

(** * Further properties of the window *)

(** ** The snap engine *)

(** X1.  A cursor that lies in exactly one zone of the current step is
    snapped to that zone's canonical point, wherever the zone stands in the
    conditional. *)
Theorem snap_unique_zone (w : TestWindow) (step : Z) (cursor : QPoint.t) (z : Zone) :
  In z (activeZones step) ->
  inZone z cursor ->
  (forall z', In z' (activeZones step) -> inZone z' cursor -> z' = z) ->
  snapLocation w step cursor = canonical z.
Proof.
  intros Hin Hz Huniq. rewrite snapLocation_snap. unfold snap.
  destruct (find (fun z0 => inZoneb z0 cursor) (activeZones step)) as [z0|] eqn:F.
  - apply find_some in F. destruct F as [F1 F2]. apply inZoneb_spec in F2.
    now rewrite (Huniq z0 F1 F2).
  - apply (find_none _ _ F) in Hin. apply inZoneb_false in Hin. contradiction.
Qed.

Lemma snap_unique_zone_witness :
  snapLocation (pressed "gpuLabel" (QSize.mk 100 110) (QPoint.mk 600 400)) 3
    (QPoint.mk 300 550) = QPoint.mk 200 370.
Proof.
  apply (snap_unique_zone _ 3 (QPoint.mk 300 550) gpuZone).
  - cbn. tauto.
  - unfold inZone; cbn; lia.
  - intros z' [<- | [<- | [<- | [<- | [<- | []]]]]]; unfold inZone; cbn; intros; try lia.
    reflexivity.
Defined.

(** X2.  At the steps 2..6 no cursor lies in more than two zones, and it
    lies in two exactly on the strip shared by the CPU and Memory rectangles
    or on the line shared by the two RAM rectangles. *)
Theorem zones_overlap_at_most_two (step : Z) (cursor : QPoint.t) :
  2 <= step <= 6 ->
  let n := List.length (filter (fun z => inZoneb z cursor) (activeZones step)) in
  (n <= 2)%nat
  /\ (n = 2%nat <->
      (315 <= QPoint.x cursor <= 350 /\ 370 <= QPoint.y cursor <= 375)
      \/ (QPoint.x cursor = 440 /\ 280 <= QPoint.y cursor <= 410)).
Proof.
  intros Hs. rewrite activeZones_free by exact Hs. cbn [filter].
  destruct (inZoneb cpuZone cursor) eqn:E1;
    destruct (inZoneb memoryZone cursor) eqn:E2;
    destruct (inZoneb gpuZone cursor) eqn:E3;
    destruct (inZoneb ramZone1 cursor) eqn:E4;
    destruct (inZoneb ramZone2 cursor) eqn:E5;
    repeat match goal with
           | H : inZoneb _ _ = true |- _ => apply inZoneb_spec in H
           | H : inZoneb _ _ = false |- _ => apply inZoneb_false in H
           end;
    unfold inZone in *; cbn in *; lia.
Qed.

Lemma zones_overlap_at_most_two_witness :
  List.length (filter (fun z => inZoneb z (QPoint.mk 440 300)) (activeZones 4)) = 2%nat.
Proof.
  apply (proj2 (zones_overlap_at_most_two 4 (QPoint.mk 440 300) ltac:(lia))).
  right. cbn. lia.
Defined.

(** X3.  At a step outside 1..6 - before the first step or once the six
    components are placed - no zone is active: every cursor, also one inside
    a rectangle of the conditional, gets the cursor-follow point. *)
Theorem snap_no_zone_outside_steps (w : TestWindow) (step : Z) (cursor : QPoint.t) :
  step < 1 \/ 6 < step ->
  snapLocation w step cursor = cursorFollow (lastSize w) cursor
  /\ (lastSize w = QSize.mk 0 0 -> snapLocation w step cursor = cursor).
Proof.
  intros H. rewrite snapLocation_inactive by exact H. split; [reflexivity|].
  intros ->. rewrite cursorFollow_coords. destruct cursor as [cx cy].
  cbn [QPoint.x QPoint.y QSize.width QSize.height].
  f_equal; Z.to_euclidean_division_equations; lia.
Qed.

Lemma snap_no_zone_outside_steps_witness :
  snapLocation (pressed "cpuLabel" (QSize.mk 80 80) (QPoint.mk 600 100)) 7
    (QPoint.mk 320 300) = QPoint.mk 280 260.
Proof.
  refine (proj1 (snap_no_zone_outside_steps
                   (pressed "cpuLabel" (QSize.mk 80 80) (QPoint.mk 600 100)) 7
                   (QPoint.mk 320 300) _)).
  right. lia.
Defined.

(** X4.  On a miss the dropped icon covers the cursor: with a size that is
    not negative, the cursor lies between the returned top-left corner and
    that corner plus the size, in both directions. *)
Theorem snap_miss_covers_cursor (w : TestWindow) (step : Z) (cursor : QPoint.t) :
  (forall z, In z (activeZones step) -> ~ inZone z cursor) ->
  0 <= QSize.width (lastSize w) -> 0 <= QSize.height (lastSize w) ->
  let p := snapLocation w step cursor in
  QPoint.x p <= QPoint.x cursor <= QPoint.x p + QSize.width (lastSize w)
  /\ QPoint.y p <= QPoint.y cursor <= QPoint.y p + QSize.height (lastSize w).
Proof.
  intros H Hw Hh p. subst p. rewrite (snapLocation_miss w step cursor H), cursorFollow_coords.
  cbn [QPoint.x QPoint.y]. split; Z.to_euclidean_division_equations; lia.
Qed.

Lemma snap_miss_covers_cursor_witness :
  let p := snapLocation (pressed "cpuLabel" (QSize.mk 81 80) (QPoint.mk 600 100)) 1
             (QPoint.mk 20 40) in
  QPoint.x p <= 20 <= QPoint.x p + 81 /\ QPoint.y p <= 40 <= QPoint.y p + 80.
Proof.
  cbv zeta.
  refine (snap_miss_covers_cursor
            (pressed "cpuLabel" (QSize.mk 81 80) (QPoint.mk 600 100)) 1
            (QPoint.mk 20 40) _ _ _).
  - intros z [<- | []]; unfold inZone; cbn; lia.
  - cbn; lia.
  - cbn; lia.
Defined.

(** ** Answers of the checker *)

Lemma setValue_out_of_range (v : Z) (b : QProgressBar.t) :
  v < 0 \/ 100 < v -> QProgressBar.setValue v b = b.
Proof.
  intros H. unfold QProgressBar.setValue, QProgressBar.maximum, QProgressBar.minimum.
  destruct (Z.eqb_spec (QProgressBar.value b) v); cbn [orb]; [reflexivity|].
  destruct (Z.gtb_spec v 100); cbn [orb andb negb Z.eqb]; [reflexivity|].
  destruct (Z.ltb_spec v 0); cbn [orb andb negb Z.eqb]; [reflexivity|lia].
Qed.

Lemma last_cons_default {A} (l : list A) (x d : A) : last (x :: l) d = last l x.
Proof.
  revert x d. induction l as [|b l IH]; intros x d; [reflexivity|].
  change (last (x :: b :: l) d) with (last (b :: l) d).
  now rewrite (IH b d), (IH b x).
Qed.

(** X5.  What a run of answers leaves behind: [dontMove] grows by the parts
    of the correct answers, in the order received and with nothing else;
    the progress bar is written once per correct answer; the saved
    [location] is the position sent with the last correct answer, and the
    old one when there is none. *)
Theorem run_records (answers : list SendAnswer) (w : TestWindow) :
  dontMove (stateOf (receiveAll answers w)) =
    dontMove w ++ map part (filter correctness answers)
  /\ progressWrites answers w =
     map (fun a => progressOf (currentStep a)) (filter correctness answers)
  /\ location (stateOf (receiveAll answers w)) =
     last (map newLocation (filter correctness answers)) (location w).
Proof.
  revert w. induction answers as [|a rest IH]; intros w.
  - cbn. now rewrite app_nil_r.
  - destruct (receiveAll_cons a rest w) as [-> _]. rewrite progressWrites_cons.
    destruct (IH (stateOf (receive a w))) as (I1 & I2 & I3).
    destruct (receive_fields a w) as (_ & _ & F3 & F4 & _).
    cbv zeta in F3, F4. rewrite I1, I2, I3, F3, F4. cbn [filter].
    destruct (correctness a); cbn [map app].
    + rewrite <- app_assoc. cbn [app]. repeat split.
      now rewrite last_cons_default.
    + rewrite app_nil_r. repeat split.
Qed.

(** X6.  Every answer plays exactly one sound and opens at most one dialog:
    the win sound and no dialog on the final placement, the good sound and
    the "Correct" dialog on any other correct one, the bad sound and the
    "Incorrect" dialog on an incorrect one; the dialog shows the checker's
    reason. *)
Theorem one_sound_per_answer (a : SendAnswer) (w : TestWindow) :
  sounds (effectsOf (receive a w)) =
    [if isFinal a then winAudio else if correctness a then goodAudio else badAudio]
  /\ dialogs (effectsOf (receive a w)) =
     (if isFinal a then []
      else [((if correctness a then "Correct" else "Incorrect")%string, reason a)]).
Proof.
  unfold isFinal.
  destruct (receive_cases a w) as [[Hc E] | [[Hc [Hs E]] | [Hc [Hs E]]]];
    rewrite E, Hc; cbn [effectsOf snd].
  - rewrite andb_false_r. split; reflexivity.
  - rewrite Hs. split; reflexivity.
  - destruct (Z.eqb_spec (currentStep a - 1) 6) as [F|_]; [contradiction|].
    cbn [andb]. unfold sounds, dialogs. rewrite !flat_map_app.
    destruct (_ >=? 50); split; reflexivity.
Qed.

(** X7.  The progress label.  An incorrect answer leaves it alone.  A correct
    answer that is not the final one, at a step in 1..6, shows
    "Almost There!" from the third locked component on (step 4, 50 percent)
    and hides the label before.  At a step outside 1..7 the bar refuses the
    value, and the label goes by the value the bar already had. *)
Theorem almost_there_threshold (a : SendAnswer) (w : TestWindow) :
  (correctness a = false -> labelCalls (effectsOf (receive a w)) = [])
  /\ (correctness a = true -> 1 <= currentStep a <= 6 ->
      labelCalls (effectsOf (receive a w)) =
      if 4 <=? currentStep a
      then [ProgressLabel_show; ProgressLabel_setText "Almost There!"]
      else [ProgressLabel_hide])
  /\ (correctness a = true -> currentStep a < 1 \/ 7 < currentStep a ->
      labelCalls (effectsOf (receive a w)) =
      if QProgressBar.value (progressBar w) >=? 50
      then [ProgressLabel_show; ProgressLabel_setText "Almost There!"]
      else [ProgressLabel_hide]).
Proof.
  split; [|split].
  - intros Hc. destruct (receive_cases a w) as [[_ E] | [[Hc' _] | [Hc' _]]];
      try congruence. now rewrite E.
  - intros Hc Hs.
    destruct (receive_cases a w) as [[Hc' _] | [[_ [Hs' _]] | [_ [_ E]]]];
      try congruence; try lia.
    rewrite E. cbn [effectsOf snd]. unfold labelCalls. rewrite !filter_app.
    rewrite setValue_in_range by (apply progressOf_range; lia).
    assert (currentStep a = 1 \/ currentStep a = 2 \/ currentStep a = 3
            \/ currentStep a = 4 \/ currentStep a = 5 \/ currentStep a = 6) as C by lia.
    destruct C as [-> | [-> | [-> | [-> | [-> | ->]]]]]; reflexivity.
  - intros Hc Hs.
    destruct (receive_cases a w) as [[Hc' _] | [[_ [Hs' _]] | [_ [_ E]]]];
      try congruence; try lia.
    rewrite E. cbn [effectsOf snd]. unfold labelCalls. rewrite !filter_app.
    rewrite setValue_out_of_range.
    + destruct (QProgressBar.value (progressBar w) >=? 50); reflexivity.
    + unfold progressOf. destruct Hs; [left|right];
        Z.to_euclidean_division_equations; lia.
Qed.

Lemma almost_there_threshold_witness :
  labelCalls (effectsOf (receive (mkSendAnswer 4 true "Memory placed." "memoryLabel"
                                    (QPoint.mk 260 370))
                           (initialWindow (QProgressBar.mk 0))))
  = [ProgressLabel_show; ProgressLabel_setText "Almost There!"]
  /\ labelCalls (effectsOf (receive (mkSendAnswer 9 true "" "ramLabel2" (QPoint.mk 443 270))
                              (initialWindow (QProgressBar.mk 83))))
     = [ProgressLabel_show; ProgressLabel_setText "Almost There!"].
Proof.
  split.
  - refine (proj1 (proj2 (almost_there_threshold
                            (mkSendAnswer 4 true "Memory placed." "memoryLabel"
                               (QPoint.mk 260 370))
                            (initialWindow (QProgressBar.mk 0)))) eq_refl _).
    cbn. lia.
  - refine (proj2 (proj2 (almost_there_threshold
                            (mkSendAnswer 9 true "" "ramLabel2" (QPoint.mk 443 270))
                            (initialWindow (QProgressBar.mk 83)))) eq_refl _).
    right. cbn. lia.
Defined.

(** ** Drags and drops *)

Lemma receiveAll_locked (answers : list SendAnswer) (w : TestWindow) :
  dontMove (stateOf (receiveAll answers w)) =
  dontMove w ++ map part (filter correctness answers).
Proof.
  revert w. induction answers as [|a rest IH]; intros w.
  - cbn. now rewrite app_nil_r.
  - destruct (receiveAll_cons a rest w) as [-> _].
    rewrite IH, receive_dontMove. cbn [filter].
    destruct (correctness a); cbn [map app].
    + now rewrite <- app_assoc.
    + now rewrite app_nil_r.
Qed.

Lemma dropEvent_state (src : bool) (cursor : QPoint.t) (step : Z)
    (answers : list SendAnswer) (w : TestWindow) :
  let w1 := stateOf (dropEvent true src cursor step answers w) in
  reset w1 = false
  /\ dontMove w1 = dontMove w ++ map part (filter correctness answers)
  /\ lastName w1 = lastName w /\ lastSize w1 = lastSize w.
Proof.
  cbv zeta. rewrite dropEvent_eq. cbn [stateOf fst snd].
  destruct (receiveAll_fields answers w) as (F1 & F2 & _). cbv zeta in F1, F2.
  pose proof (receiveAll_locked answers w) as L.
  destruct (reset (stateOf (receiveAll answers w))) eqn:E;
    cbn [withReset reset dontMove lastName lastSize]; auto.
Qed.

Lemma not_checkAnswer_in (name : string) (loc : QPoint.t) (evs : list Effect) :
  existsb (is_checkAnswer_for name) evs = false -> ~ In (Emit_checkAnswer name loc) evs.
Proof.
  intros H Hin. assert (existsb (is_checkAnswer_for name) evs = true) as T.
  { apply existsb_exists. exists (Emit_checkAnswer name loc). split; [exact Hin|].
    cbn. apply String.eqb_refl. }
  congruence.
Qed.

Lemma iconBalance_app (name : string) (e1 e2 : list Effect) :
  iconBalance name (e1 ++ e2) = iconBalance name e1 + iconBalance name e2.
Proof.
  induction e1 as [|e e1 IH]; [reflexivity|].
  cbn [app]. unfold iconBalance in *. cbn [fold_right]. rewrite IH.
  destruct e; try reflexivity; destruct (String.eqb _ name); lia.
Qed.

Lemma receiveAll_iconBalance (name : string) (answers : list SendAnswer) (w : TestWindow) :
  iconBalance name (effectsOf (receiveAll answers w)) = 0.
Proof.
  revert w. induction answers as [|a rest IH]; intros w; [reflexivity|].
  destruct (receiveAll_cons a rest w) as [_ ->]. rewrite iconBalance_app, IH.
  destruct (receive_cases a w) as [[Hc E] | [[Hc [Hs E]] | [Hc [Hs E]]]];
    rewrite E; cbn [effectsOf snd]; try reflexivity.
  rewrite !iconBalance_app. destruct (_ >=? 50); reflexivity.
Qed.

Lemma NoDup_snoc {A} (l : list A) (x : A) : NoDup l -> ~ In x l -> NoDup (l ++ [x]).
Proof.
  induction l as [|a l IH]; intros Hl Hx; cbn [app].
  - constructor; [intros []|constructor].
  - inversion Hl as [|? ? Ha Hl']; subst. constructor.
    + intros Hin. apply in_app_or in Hin. destruct Hin as [Hin | [-> | []]].
      * contradiction.
      * apply Hx. now left.
    + apply IH; [exact Hl'|]. intros Hin. apply Hx. now right.
Qed.

(** One gesture, case by case: nothing for a null or locked label; the
    label recorded and shown again when the drag is abandoned, or closed
    when another target takes it; the drop handled and the label closed
    when the drag ends on the window. *)
Lemma gesture_cases (child : option QLabel) (drag : DragEnd) (w : TestWindow) :
  (mousePressEvent child drag w = (tt, w, [])
   /\ (child = None \/ exists c, child = Some c /\ In (objectName c) (dontMove w)))
  \/ (exists c, child = Some c /\ ~ In (objectName c) (dontMove w)
                /\ ((drag = NotMoved
                     /\ mousePressEvent child drag w =
                        (tt, afterPress w c, [Child_show (objectName c)]))
                    \/ (drag = MovedElsewhere
                        /\ mousePressEvent child drag w =
                           (tt, afterPress w c, [Child_close (objectName c)]))))
  \/ (exists c d, child = Some c /\ ~ In (objectName c) (dontMove w)
                  /\ drag = DroppedOnWindow d
                  /\ mousePressEvent child drag w =
                     (tt,
                      stateOf (dropEvent true true (dropCursor d) (dropStep d)
                                 (dropAnswers d) (afterPress w c)),
                      effectsOf (dropEvent true true (dropCursor d) (dropStep d)
                                   (dropAnswers d) (afterPress w c))
                      ++ [Child_close (objectName c)])).
Proof.
  destruct child as [c|]; [|left; split; [reflexivity|now left]].
  destruct (in_dec string_dec (objectName c) (dontMove w)) as [L|L].
  - left. split; [now apply mousePressEvent_locked|]. right. now exists c.
  - destruct drag as [d| |].
    + right; right. exists c, d. repeat split; auto. now apply mousePressEvent_drop.
    + right; left. exists c. repeat split; auto. right.
      split; [reflexivity|now apply mousePressEvent_moved_elsewhere].
    + right; left. exists c. repeat split; auto. left.
      split; [reflexivity|now apply mousePressEvent_no_drop].
Qed.

(** X8.  A drag is treated alike on entry, on move and on drop: without the
    item data the event is ignored, and the drop then creates no icon, asks
    the checker nothing and leaves the window as it was; with the item data
    entry and move accept it and the drop shows an icon and emits
    [checkAnswer] once, for [lastName] at the snapped position. *)
Theorem drag_acceptance (hasFormat src : bool) (cursor : QPoint.t) (step : Z)
    (answers : list SendAnswer) (w : TestWindow) :
  dragMoveEvent hasFormat src w = dragEnterEvent hasFormat src w
  /\ stateOf (dragEnterEvent hasFormat src w) = w
  /\ (In Event_ignore (effectsOf (dragEnterEvent hasFormat src w)) <-> hasFormat = false)
  /\ (hasFormat = false ->
      dropEvent hasFormat src cursor step answers w = (None, w, [Event_ignore]))
  /\ (hasFormat = true ->
      exists rest,
        effectsOf (dropEvent hasFormat src cursor step answers w) =
        [NewIcon_show (lastName w) (snapLocation w step cursor) (lastSize w)]
        ++ effectsOf (dragEnterEvent hasFormat src w)
        ++ [Emit_checkAnswer (lastName w) (snapLocation w step cursor)]
        ++ rest
        /\ (forall name, existsb (is_checkAnswer_for name) rest = false)).
Proof.
  split; [reflexivity|]. split; [now destruct hasFormat, src|]. split.
  { destruct hasFormat, src; cbn; split; intros H; try discriminate; try tauto;
      repeat (destruct H as [H|H]; try discriminate); contradiction. }
  split; [intros ->; reflexivity|].
  intros ->. rewrite dropEvent_eq. cbn [effectsOf snd].
  exists (effectsOf (receiveAll answers w)
          ++ (if reset (stateOf (receiveAll answers w))
              then [NewIcon_move (location (stateOf (receiveAll answers w)))] else [])).
  split.
  - destruct src; reflexivity.
  - intros name. rewrite existsb_app.
    destruct (receiveAll_fields answers w) as (_ & _ & _ & _ & _ & _ & I7 & _).
    rewrite I7. now destruct (reset _).
Qed.

Lemma drag_acceptance_witness :
  dropEvent false true (QPoint.mk 300 400) 1
    [mkSendAnswer 2 true "Motherboard placed." "motherboardLabel" (QPoint.mk 200 245)]
    (pressed "motherboardLabel" (QSize.mk 300 300) (QPoint.mk 640 60))
  = (None, pressed "motherboardLabel" (QSize.mk 300 300) (QPoint.mk 640 60), [Event_ignore]).
Proof.
  exact (proj1 (proj2 (proj2 (proj2
           (drag_acceptance false true (QPoint.mk 300 400) 1
              [mkSendAnswer 2 true "Motherboard placed." "motherboardLabel"
                 (QPoint.mk 200 245)]
              (pressed "motherboardLabel" (QSize.mk 300 300) (QPoint.mk 640 60))))))
           eq_refl).
Defined.

Lemma gesture_reset (child : option QLabel) (drag : DragEnd) (w : TestWindow) :
  reset w = false -> reset (stateOf (mousePressEvent child drag w)) = false.
Proof.
  intros H.
  destruct (gesture_cases child drag w)
    as [[E _] | [(c & _ & _ & [[_ E] | [_ E]]) | (c & d & _ & _ & _ & E)]];
    rewrite E; cbn [stateOf fst snd afterPress reset]; auto.
  apply dropEvent_state.
Qed.

(** X9.  The revert flag never outlives the drop that raised it: in a
    window whose [reset] is clear it is clear again after any session of
    presses and drags, whatever the checker answers. *)
Theorem session_reset_clear (gestures : list (option QLabel * DragEnd))
    (w : TestWindow) :
  reset w = false -> reset (stateOf (session gestures w)) = false.
Proof.
  revert w. induction gestures as [|[child drag] rest IH]; intros w H; [exact H|].
  destruct (session_cons child drag rest w) as [-> _].
  apply IH. now apply gesture_reset.
Qed.

Lemma session_reset_clear_witness :
  reset (stateOf (session
                    [(Some (mkQLabel "cpuLabel" (QSize.mk 80 80) (QPoint.mk 600 100)),
                      DroppedOnWindow (mkDropOnWindow (QPoint.mk 320 300) 1
                              [mkSendAnswer 1 false "Place the motherboard first."
                                 "cpuLabel" (QPoint.mk 200 245)]))]
                    (initialWindow (QProgressBar.mk 0)))) = false.
Proof.
  apply (session_reset_clear _ (initialWindow (QProgressBar.mk 0))). reflexivity.
Defined.

Lemma gesture_locked (child : option QLabel) (drag : DragEnd) (w : TestWindow) :
  dontMove (stateOf (mousePressEvent child drag w)) =
  dontMove w ++
  match child, drag with
  | Some c, DroppedOnWindow d =>
      if contains (dontMove w) (objectName c) then []
      else map part (filter correctness (dropAnswers d))
  | _, _ => []
  end.
Proof.
  destruct (gesture_cases child drag w)
    as [[E H] | [(c & -> & _ & [[-> E] | [-> E]]) | (c & d & -> & L & -> & E)]];
    rewrite E; cbn [stateOf fst snd afterPress dontMove].
  - destruct H as [-> | (c & -> & L)]; [now rewrite app_nil_r|].
    apply contains_In in L. rewrite L. destruct drag; now rewrite app_nil_r.
  - now rewrite app_nil_r.
  - now rewrite app_nil_r.
  - rewrite <- contains_In in L. apply not_true_is_false in L. rewrite L.
    now destruct (dropEvent_state true (dropCursor d) (dropStep d) (dropAnswers d)
                    (afterPress w c)) as (_ & -> & _).
Qed.

(** X10.  When the checker answers each drop at most once and about the
    label that was dragged, no name is entered twice: a [dontMove] without
    repetition has none after any session. *)
Theorem session_locked_once (gestures : list (option QLabel * DragEnd))
    (w : TestWindow) :
  NoDup (dontMove w) ->
  Forall echoes gestures ->
  NoDup (dontMove (stateOf (session gestures w))).
Proof.
  revert w. induction gestures as [|[child drag] rest IH]; intros w Hw He; [exact Hw|].
  destruct (session_cons child drag rest w) as [-> _].
  inversion He as [|? ? Hg Hrest]; subst. apply IH; [|exact Hrest].
  rewrite gesture_locked. destruct child as [c|]; [|now rewrite app_nil_r].
  destruct drag as [d| |]; try now rewrite app_nil_r.
  destruct (contains (dontMove w) (objectName c)) eqn:L; [now rewrite app_nil_r|].
  cbn [echoes] in Hg. destruct (dropAnswers d) as [|a [|b l]]; try contradiction.
  - now rewrite app_nil_r.
  - cbn [filter]. destruct (correctness a); cbn [map]; [|now rewrite app_nil_r].
    apply NoDup_snoc; [exact Hw|]. rewrite Hg, <- contains_In. congruence.
Qed.

Lemma session_locked_once_witness :
  NoDup (dontMove motherboardPlaced).
Proof.
  refine (session_locked_once
            [(Some (mkQLabel "motherboardLabel" (QSize.mk 300 300) (QPoint.mk 640 60)),
              DroppedOnWindow (mkDropOnWindow (QPoint.mk 300 400) 1
                      [mkSendAnswer 2 true "Motherboard placed." "motherboardLabel"
                         (QPoint.mk 200 245)]))]
            (initialWindow (QProgressBar.mk 0)) _ _).
  - cbn. repeat constructor; cbn; intros H;
      repeat (destruct H as [H|H]; try discriminate); contradiction.
  - repeat constructor.
Defined.

(** Without that discipline a name is entered again: two correct answers to
    one drop lock the part twice. *)
Example locked_twice :
  dontMove (stateOf (receiveAll
                       [mkSendAnswer 2 true "" "motherboardLabel" (QPoint.mk 200 245);
                        mkSendAnswer 3 true "" "motherboardLabel" (QPoint.mk 200 245)]
                       (initialWindow (QProgressBar.mk 0))))
  = ["caseLabel"; "centralwidget"; "motherboardLabel"; "motherboardLabel"]%string.
Proof. reflexivity. Qed.

Lemma gesture_checkAnswer (child : option QLabel) (drag : DragEnd)
    (w : TestWindow) (p : string) (loc : QPoint.t) :
  In (Emit_checkAnswer p loc) (effectsOf (mousePressEvent child drag w)) ->
  exists c, child = Some c /\ objectName c = p /\ ~ In p (dontMove w).
Proof.
  destruct (gesture_cases child drag w)
    as [[E _] | [(c & _ & _ & [[_ E] | [_ E]]) | (c & d & Hc & L & _ & E)]];
    rewrite E; cbn [effectsOf snd].
  - intros [].
  - intros [H | []]. discriminate.
  - intros [H | []]. discriminate.
  - rewrite dropEvent_eq. cbn [effectsOf snd lastName afterPress].
    intros H. exists c.
    assert (objectName c = p) as Hp.
    { destruct (String.eqb_spec (objectName c) p) as [Eq|Ne]; [exact Eq|exfalso].
      destruct (receiveAll_fields (dropAnswers d) (afterPress w c))
        as (_ & _ & _ & _ & _ & _ & I7 & _).
      repeat (apply in_app_or in H; destruct H as [H|H]).
      - destruct H as [H | []]. discriminate.
      - repeat (destruct H as [H|H]; try discriminate). contradiction.
      - destruct H as [H | []]. inversion H. contradiction.
      - now apply (not_checkAnswer_in p loc _ (I7 p)).
      - destruct (reset _); repeat (destruct H as [H|H]; try discriminate); contradiction.
      - destruct H as [H | []]. discriminate. }
    repeat split; auto. now rewrite <- Hp.
Qed.

(** X11.  The checker is only asked about labels that were pressed: every
    [checkAnswer] emitted in a session carries the object name of a label
    pressed in that session, and that name was not locked when the session
    began. *)
Theorem session_checkAnswer_pressed (gestures : list (option QLabel * DragEnd))
    (w : TestWindow) (p : string) (loc : QPoint.t) :
  In (Emit_checkAnswer p loc) (effectsOf (session gestures w)) ->
  In p (pressedNames gestures) /\ ~ In p (dontMove w).
Proof.
  revert w. induction gestures as [|[child drag] rest IH]; intros w H; [destruct H|].
  destruct (session_cons child drag rest w) as [_ E]. rewrite E in H.
  apply in_app_or in H. unfold pressedNames. cbn [flat_map fst].
  destruct H as [H|H].
  - apply gesture_checkAnswer in H. destruct H as (c & -> & <- & L).
    split; [now left|exact L].
  - apply IH in H. destruct H as [H1 H2]. split.
    + apply in_or_app. now right.
    + intros Hin. apply H2.
      now apply (mousePressEvent_keeps_locked child drag w p).
Qed.

Lemma session_checkAnswer_pressed_witness :
  In "cpuLabel"%string
     (pressedNames
        [(Some (mkQLabel "cpuLabel" (QSize.mk 80 80) (QPoint.mk 600 100)),
          DroppedOnWindow (mkDropOnWindow (QPoint.mk 320 300) 1 []))])
  /\ ~ In "cpuLabel"%string (dontMove (initialWindow (QProgressBar.mk 0))).
Proof.
  apply (session_checkAnswer_pressed
           [(Some (mkQLabel "cpuLabel" (QSize.mk 80 80) (QPoint.mk 600 100)),
             DroppedOnWindow (mkDropOnWindow (QPoint.mk 320 300) 1 []))]
           (initialWindow (QProgressBar.mk 0)) "cpuLabel" (QPoint.mk 200 245)).
  cbn. tauto.
Defined.

(** X12.  The lock is enforced by [mousePressEvent] alone: [dropEvent] does
    not consult [dontMove].  Once a dragged label has been judged correct
    and locked, a drop that reaches the handler without a press of its own
    (a drag from another source) emits [checkAnswer] for that locked label
    again. *)
Theorem drop_ignores_lock (w : TestWindow) (c : QLabel) (d : DropOnWindow) (a : SendAnswer)
    (src : bool) (cursor : QPoint.t) (step : Z) (answers : list SendAnswer) :
  ~ In (objectName c) (dontMove w) ->
  dropAnswers d = [a] -> correctness a = true -> part a = objectName c ->
  let w1 := stateOf (mousePressEvent (Some c) (DroppedOnWindow d) w) in
  In (objectName c) (dontMove w1)
  /\ mousePressEvent (Some c) (DroppedOnWindow (mkDropOnWindow cursor step answers)) w1 = (tt, w1, [])
  /\ In (Emit_checkAnswer (objectName c) (snapLocation w1 step cursor))
        (effectsOf (dropEvent true src cursor step answers w1)).
Proof.
  intros L Hd Hc Hp w1.
  assert (In (objectName c) (dontMove w1)) as Hin.
  { subst w1. rewrite gesture_locked. rewrite <- contains_In in L.
    apply not_true_is_false in L. rewrite L, Hd. cbn [filter]. rewrite Hc. cbn [map].
    rewrite Hp. apply in_or_app. right. now left. }
  assert (lastName w1 = objectName c) as Hn.
  { subst w1. rewrite mousePressEvent_drop by exact L. cbn [stateOf fst snd].
    now destruct (dropEvent_state true (dropCursor d) (dropStep d) (dropAnswers d)
                    (afterPress w c)) as (_ & _ & -> & _). }
  split; [exact Hin|]. split; [now apply mousePressEvent_locked|].
  rewrite dropEvent_eq. cbn [effectsOf snd]. rewrite Hn.
  apply in_or_app. right. apply in_or_app. right. now left.
Qed.

Lemma drop_ignores_lock_witness :
  In (Emit_checkAnswer "motherboardLabel" (snapLocation motherboardPlaced 2 (QPoint.mk 700 100)))
     (effectsOf (dropEvent true false (QPoint.mk 700 100) 2 [] motherboardPlaced)).
Proof.
  refine (proj2 (proj2 (drop_ignores_lock
            (initialWindow (QProgressBar.mk 0))
            (mkQLabel "motherboardLabel" (QSize.mk 300 300) (QPoint.mk 640 60))
            (mkDropOnWindow (QPoint.mk 300 400) 1
               [mkSendAnswer 2 true "Motherboard placed." "motherboardLabel"
                  (QPoint.mk 200 245)])
            (mkSendAnswer 2 true "Motherboard placed." "motherboardLabel" (QPoint.mk 200 245))
            false (QPoint.mk 700 100) 2 [] _ eq_refl eq_refl eq_refl))).
  cbn. intros [H | [H | []]]; discriminate.
Defined.

(** X13.  A correct placement is committed where it was snapped: when the
    checker's single answer to a drop is correct and no revert is pending,
    the new icon stays at the point [snapLocation] returned, the part is
    locked, and [location] becomes the position sent by the checker.  With a
    revert pending from elsewhere the icon is moved to that position
    instead. *)
Theorem correct_drop_commits (w : TestWindow) (src : bool) (cursor : QPoint.t) (step : Z)
    (a : SendAnswer) :
  correctness a = true ->
  let r := dropEvent true src cursor step [a] w in
  valueOf r = Some (if reset w then newLocation a else snapLocation w step cursor)
  /\ filter is_iconMove (effectsOf r) =
     (if reset w then [NewIcon_move (newLocation a)] else [])
  /\ location (stateOf r) = newLocation a
  /\ dontMove (stateOf r) = dontMove w ++ [part a]
  /\ reset (stateOf r) = false.
Proof.
  intros Hc r. subst r.
  destruct (dropEvent_state src cursor step [a] w) as (S1 & S2 & _).
  cbv zeta in S1, S2. cbn [filter] in S2. rewrite Hc in S2. cbn [map] in S2.
  rewrite dropEvent_eq in *.
  destruct (receiveAll_fields [a] w) as (_ & _ & _ & _ & _ & I6 & _ & I8).
  cbv zeta in I6. rewrite (I6 (Forall_cons _ Hc (Forall_nil _))) in *.
  assert (location (stateOf (receiveAll [a] w)) = newLocation a) as Hl.
  { destruct (receiveAll_cons a [] w) as [-> _]. cbn [receiveAll ret stateOf fst snd].
    destruct (receive_fields a w) as (_ & _ & _ & F4 & _). cbv zeta in F4.
    now rewrite F4, Hc. }
  cbn [valueOf stateOf effectsOf fst snd] in *. rewrite !filter_app, (filter_none _ _ I8).
  destruct (reset w); cbn [withReset location]; rewrite Hl;
    destruct src; cbn; repeat split; auto.
Qed.

Lemma correct_drop_commits_witness :
  valueOf (dropEvent true true (QPoint.mk 300 400) 1
             [mkSendAnswer 2 true "Motherboard placed." "motherboardLabel"
                (QPoint.mk 200 245)]
             (pressed "motherboardLabel" (QSize.mk 300 300) (QPoint.mk 640 60)))
  = Some (QPoint.mk 200 245).
Proof.
  exact (proj1 (correct_drop_commits
                  (pressed "motherboardLabel" (QSize.mk 300 300) (QPoint.mk 640 60))
                  true (QPoint.mk 300 400) 1
                  (mkSendAnswer 2 true "Motherboard placed." "motherboardLabel"
                     (QPoint.mk 200 245)) eq_refl)).
Defined.

Lemma gesture_iconBalance (child : option QLabel) (drag : DragEnd) (w : TestWindow)
    (name : string) :
  iconBalance name (effectsOf (mousePressEvent child drag w)) <= 0
  /\ (drag <> MovedElsewhere ->
      iconBalance name (effectsOf (mousePressEvent child drag w)) = 0).
Proof.
  destruct (gesture_cases child drag w)
    as [[E _] | [(c & _ & _ & [[-> E] | [-> E]]) | (c & d & _ & _ & -> & E)]];
    rewrite E; cbn [effectsOf snd].
  - cbn. split; [lia|reflexivity].
  - cbn. split; [lia|reflexivity].
  - cbn. destruct (String.eqb (objectName c) name); split; try lia; congruence.
  - rewrite dropEvent_eq. cbn [effectsOf snd lastName afterPress].
    rewrite !iconBalance_app, receiveAll_iconBalance.
    unfold iconBalance at 1 4. cbn [fold_right].
    assert (iconBalance name [Event_setDropAction_Move; Event_accept] = 0) as ->
      by reflexivity.
    assert (forall p, iconBalance name [Emit_checkAnswer (objectName c) p] = 0) as ->
      by reflexivity.
    destruct (reset _); cbn; destruct (String.eqb (objectName c) name); split; lia.
Qed.

(** X14.  The window's own drags never duplicate an icon: over any session,
    for every name, the icons of that name created by drops are at most as
    many as the labels of that name closed; they are as many when no drag of
    the session was taken as a move by another drop target, which closes the
    label here without a drop on this window. *)
Theorem session_icon_balance (gestures : list (option QLabel * DragEnd))
    (w : TestWindow) (name : string) :
  iconBalance name (effectsOf (session gestures w)) <= 0
  /\ (Forall (fun g => snd g <> MovedElsewhere) gestures ->
      iconBalance name (effectsOf (session gestures w)) = 0).
Proof.
  revert w. induction gestures as [|[child drag] rest IH]; intros w.
  - cbn. split; [lia|reflexivity].
  - destruct (session_cons child drag rest w) as [_ ->].
    rewrite iconBalance_app.
    destruct (gesture_iconBalance child drag w name) as [G1 G2].
    destruct (IH (stateOf (mousePressEvent child drag w))) as [I1 I2].
    split; [lia|].
    intros H. inversion H as [|? ? Hg Hrest]; subst. cbn [snd] in Hg.
    rewrite (G2 Hg), (I2 Hrest). reflexivity.
Qed.

Lemma session_icon_balance_witness :
  iconBalance "cpuLabel"
    (effectsOf (session
                  [(Some (mkQLabel "cpuLabel" (QSize.mk 80 80) (QPoint.mk 600 100)),
                    DroppedOnWindow (mkDropOnWindow (QPoint.mk 320 300) 1
                                       [mkSendAnswer 1 false "Place the motherboard first."
                                          "cpuLabel" (QPoint.mk 200 245)]));
                   (Some (mkQLabel "cpuLabel" (QSize.mk 80 80) (QPoint.mk 600 100)),
                    NotMoved)]
                  (initialWindow (QProgressBar.mk 0)))) = 0.
Proof.
  apply (proj2 (session_icon_balance _ (initialWindow (QProgressBar.mk 0)) "cpuLabel")).
  repeat constructor; cbn; discriminate.
Defined.

(** A drag that another target takes closes the label and creates no icon
    here. *)
Example moved_elsewhere_closes :
  mousePressEvent (Some (mkQLabel "cpuLabel" (QSize.mk 80 80) (QPoint.mk 600 100)))
    MovedElsewhere (initialWindow (QProgressBar.mk 0))
  = (tt, afterPress (initialWindow (QProgressBar.mk 0))
           (mkQLabel "cpuLabel" (QSize.mk 80 80) (QPoint.mk 600 100)),
     [Child_close "cpuLabel"]).
Proof. reflexivity. Qed.

(** ** The rainbow label *)

Lemma updateProgressLabel_step (i : Z) :
  0 <= i < 7 -> updateProgressLabel i = Some (sheetAt i, (i + 1) mod 7).
Proof.
  intros H.
  assert (i = 0 \/ i = 1 \/ i = 2 \/ i = 3 \/ i = 4 \/ i = 5 \/ i = 6) as C by lia.
  destruct C as [-> | [-> | [-> | [-> | [-> | [-> | ->]]]]]]; reflexivity.
Qed.

Lemma sheetAt_mod (j : Z) : sheetAt (j mod 7) = sheetAt j.
Proof. unfold sheetAt. now rewrite Z.mod_mod by lia. Qed.

(** X15.  The colour index never leaves the list.  From an index in 0..6,
    any number of timer ticks succeeds; the k-th tick sets the style sheet
    of colour (index + k) mod 7, so the label runs through the seven colours
    in order and starts again; the index left is (index + n) mod 7, back
    where it was after seven ticks.  From an index outside 0..6 the first
    tick has no colour to read. *)
Theorem updateProgressLabel_cycle (n : nat) (i : Z) :
  (0 <= i < 7 ->
   ticks n i = Some (map (fun k => sheetAt (i + Z.of_nat k)) (seq 0 n),
                     (i + Z.of_nat n) mod 7)
   /\ 0 <= (i + Z.of_nat n) mod 7 < 7
   /\ ticks 7 i = Some (map (fun k => sheetAt (i + Z.of_nat k)) (seq 0 7), i))
  /\ (i < 0 \/ 7 <= i -> updateProgressLabel i = None /\ ticks (S n) i = None).
Proof.
  assert (forall m j, 0 <= j < 7 ->
            ticks m j = Some (map (fun k => sheetAt (j + Z.of_nat k)) (seq 0 m),
                              (j + Z.of_nat m) mod 7)) as T.
  { induction m as [|m IH]; intros j Hj.
    - cbn [ticks seq map]. rewrite Z.add_0_r, Z.mod_small by lia. reflexivity.
    - cbn [ticks]. rewrite updateProgressLabel_step by exact Hj.
      rewrite IH by (apply Z.mod_pos_bound; lia).
      cbn [seq map]. rewrite Z.add_0_r. f_equal. f_equal.
      + f_equal. rewrite <- seq_shift, map_map. apply map_ext. intros k.
        rewrite <- sheetAt_mod, Zplus_mod_idemp_l, sheetAt_mod. f_equal. lia.
      + rewrite Zplus_mod_idemp_l. f_equal. lia. }
  split.
  - intros H. split; [now apply T|]. split; [apply Z.mod_pos_bound; lia|].
    rewrite T by exact H. f_equal. f_equal.
    change (Z.of_nat 7) with 7. rewrite <- Z.add_mod_idemp_r, Z.mod_same by lia.
    rewrite Z.add_0_r. apply Z.mod_small. exact H.
  - intros H.
    assert (updateProgressLabel i = None) as U.
    { unfold updateProgressLabel. destruct (Z.ltb_spec i 0); [reflexivity|].
      destruct H as [H|H]; [lia|].
      assert (nth_error progressLabelColors (Z.to_nat i) = None) as ->; [|reflexivity].
      apply nth_error_None. cbn [List.length progressLabelColors]. lia. }
    split; [exact U|]. cbn [ticks]. now rewrite U.
Qed.

Lemma updateProgressLabel_cycle_witness :
  ticks 9 0 =
  Some (map sheetAt [0; 1; 2; 3; 4; 5; 6; 7; 8], 2)
  /\ sheetAt 7 = "color: red; font-size: 60px;"%string.
Proof.
  split; [|reflexivity].
  refine (proj1 (proj1 (updateProgressLabel_cycle 9 0) _)). lia.
Defined.

(** ** The position sent to the checker, and the bar over a run *)

(** X16.  A drag of an unlocked label that ends on the window shows the new
    icon, with the label's name and size, at the point that the snap engine
    gives for the drop position, the step and that label's own size -
    whatever was dragged before - and asks the checker about that same
    point. *)
Theorem gesture_snap_point (w : TestWindow) (c : QLabel) (d : DropOnWindow) :
  ~ In (objectName c) (dontMove w) ->
  let p := snap (size c) (dropStep d) (dropCursor d) in
  exists rest,
    effectsOf (mousePressEvent (Some c) (DroppedOnWindow d) w) =
    NewIcon_show (objectName c) p (size c)
    :: Event_setDropAction_Move :: Event_accept
    :: Emit_checkAnswer (objectName c) p
    :: rest
    /\ (forall name, existsb (is_checkAnswer_for name) rest = false).
Proof.
  intros L p. rewrite mousePressEvent_drop by exact L. cbn [effectsOf snd].
  rewrite dropEvent_eq. cbn [effectsOf snd lastName lastSize afterPress app].
  rewrite snapLocation_snap. cbn [lastSize afterPress]. fold p.
  eexists. split; [reflexivity|].
  intros name. rewrite !existsb_app.
  destruct (receiveAll_fields (dropAnswers d) (afterPress w c))
    as (_ & _ & _ & _ & _ & _ & I7 & _).
  rewrite I7. now destruct (reset _).
Qed.

Lemma gesture_snap_point_witness :
  exists rest,
    effectsOf (mousePressEvent
                 (Some (mkQLabel "cpuLabel" (QSize.mk 80 80) (QPoint.mk 600 100)))
                 (DroppedOnWindow (mkDropOnWindow (QPoint.mk 320 300) 2 []))
                 motherboardPlaced) =
    NewIcon_show "cpuLabel" (QPoint.mk 315 295) (QSize.mk 80 80)
    :: Event_setDropAction_Move :: Event_accept
    :: Emit_checkAnswer "cpuLabel" (QPoint.mk 315 295)
    :: rest
    /\ (forall name, existsb (is_checkAnswer_for name) rest = false).
Proof.
  refine (gesture_snap_point motherboardPlaced
            (mkQLabel "cpuLabel" (QSize.mk 80 80) (QPoint.mk 600 100))
            (mkDropOnWindow (QPoint.mk 320 300) 2 []) _).
  cbn. intros [H | [H | [H | []]]]; discriminate.
Defined.

(** X17.  The progress bar stays inside its range over any run of answers:
    a value in 0..100 is in 0..100 after every answer, whatever steps the
    checker reports; and when the reported steps never decrease, a bar that
    starts at 0 never goes down. *)
Theorem progressBar_in_range (answers : list SendAnswer) (w : TestWindow) :
  0 <= QProgressBar.value (progressBar w) <= 100 ->
  Forall (fun v => 0 <= v <= 100) (barValues answers w)
  /\ (Sorted Z.le (map currentStep answers) ->
      QProgressBar.value (progressBar w) = 0 ->
      Sorted Z.le (QProgressBar.value (progressBar w) :: barValues answers w)).
Proof.
  intros H. split.
  - revert w H. induction answers as [|a rest IH]; intros w H; [constructor|].
    cbn [barValues].
    assert (0 <= QProgressBar.value (progressBar (stateOf (receive a w))) <= 100) as H'.
    { destruct (receive_bar a w) as [E | [E R]]; rewrite E; lia. }
    constructor; [exact H'|now apply IH].
  - intros Hs H0. apply barValues_sorted.
    + apply Sorted_StronglySorted; [|exact Hs]. intros x y z; apply Z.le_trans.
    + intros a _ P. lia.
    + lia.
Qed.

Lemma progressBar_in_range_witness :
  barValues sampleRun (initialWindow (QProgressBar.mk 0)) = [0; 16; 33; 33; 50; 66; 83; 100]
  /\ Forall (fun v => 0 <= v <= 100) (barValues sampleRun (initialWindow (QProgressBar.mk 0))).
Proof.
  split; [reflexivity|].
  refine (proj1 (progressBar_in_range sampleRun (initialWindow (QProgressBar.mk 0)) _)).
  cbn. lia.
Defined.
